(** * Tic-tac-toe with a minimax agent: a shallow embedding of
    [tic_tac_toe.py] and the properties of its board and search.

    The Python program keeps the grid in a NumPy array of shape (3,3) and
    dtype uint8.  Arrays are mutable objects that are passed by reference,
    so the embedding has an explicit store of arrays: a [Board] object
    holds the address of its array, [get_board] allocates a copy and
    [set_board] installs the address it is given.  Methods are functions in
    a state-and-exception monad over that store.  In [Board] the [print]
    calls are left out; [Screen] and [Main] below have the terminal. *)

From Stdlib Require Import ZArith Lia Bool.
From stdpp Require Import base list.
From Stdlib Require Import DecimalString.
From stdpp Require Import strings.

(** ** NumPy arrays as values *)

(** A two-dimensional uint8 array, given by its rows. *)
Abbreviation ndarray := (list (list Z)).
Abbreviation mask := (list (list bool)).

Inductive exn : Type := IndexError | ValueError.

Inductive res (A : Type) : Type :=
| Ok (a : A)
| Err (e : exn).
Arguments Ok {A} a.
Arguments Err {A} e.

Definition res_bind {A B} (r : res A) (k : A -> res B) : res B :=
  match r with
  | Ok a => k a
  | Err e => Err e
  end.

(** Storing an integer in a uint8 cell.  A value from 0 to 255 is stored
    as it is, on every version of NumPy; the game only stores 1 and 2.
    For a value outside that range the low eight bits are kept, as NumPy
    before version 2 does; NumPy 2 raises OverflowError there instead,
    so nothing below is claimed of the source for such a value. *)
Definition to_uint8 (v : Z) : Z := (v mod 256)%Z.

(** [np.zeros(shape=(r,c), dtype='uint8')] *)
Definition np_zeros (r c : nat) : ndarray := replicate r (replicate c 0%Z).

(** [a.shape] *)
Definition np_shape (a : ndarray) : nat * nat :=
  (length a, match a with r :: _ => length r | [] => 0 end).

(** [a[i,j]] for non-negative indices; out of range is an IndexError. *)
Definition np_getitem (a : ndarray) (i j : nat) : res Z :=
  match a !! i with
  | Some r => match r !! j with
              | Some v => Ok v
              | None => Err IndexError
              end
  | None => Err IndexError
  end.

(** The array value after [a[i,j] = v]; out of range is an IndexError. *)
Definition np_setitem (a : ndarray) (i j : nat) (v : Z) : res ndarray :=
  match a !! i with
  | Some r => if (j <? length r)%nat
              then Ok (<[i := <[j := to_uint8 v]> r]> a)
              else Err IndexError
  | None => Err IndexError
  end.

(** [a == v], elementwise *)
Definition np_eq (a : ndarray) (v : Z) : mask :=
  (fun r : list Z => (fun c => (c =? v)%Z) <$> r) <$> a.

(** [np.all] of a one-dimensional boolean array *)
Definition np_all (l : list bool) : bool := forallb id l.

(** [np.any] of a two-dimensional boolean array *)
Definition np_any (m : mask) : bool := existsb (existsb id) m.

(** [m[i,:]] *)
Definition np_row (m : mask) (i : nat) : res (list bool) :=
  match m !! i with
  | Some r => Ok r
  | None => Err IndexError
  end.

(** [m[:,i]] *)
Fixpoint np_col (m : mask) (i : nat) : res (list bool) :=
  match m with
  | [] => Ok []
  | r :: m' =>
      match r !! i with
      | Some b => res_bind (np_col m' i) (fun c => Ok (b :: c))
      | None => Err IndexError
      end
  end.

(** [m.diagonal()]: the cells (k,k), as far as both dimensions reach *)
Fixpoint diagonal_from (k : nat) (m : mask) : list bool :=
  match m with
  | [] => []
  | r :: m' =>
      match r !! k with
      | Some b => b :: diagonal_from (S k) m'
      | None => []
      end
  end.
Definition np_diagonal (m : mask) : list bool := diagonal_from 0 m.

(** [m[:,::-1]]: every row reversed *)
Definition np_fliplr (m : mask) : mask := fmap (@rev bool) m.

(** [np.where(m)]: the coordinates of the true cells, in row-major order,
    as an array of rows and an array of columns. *)
Fixpoint where_row (i j : nat) (r : list bool) : list (nat * nat) :=
  match r with
  | [] => []
  | b :: r' => (if b then [(i, j)] else []) ++ where_row i (S j) r'
  end.
Fixpoint where_from (i : nat) (m : mask) : list (nat * nat) :=
  match m with
  | [] => []
  | r :: m' => where_row i 0 r ++ where_from (S i) m'
  end.
Definition np_where (m : mask) : list nat * list nat :=
  let hits := where_from 0 m in (fmap fst hits, fmap snd hits).

(** [np.max], [np.min], [np.argmax], [np.argmin] of a list of integers.
    The index returned is that of the first occurrence of the extremum; an
    empty list is a ValueError. *)
Fixpoint max_from (best : Z) (l : list Z) : Z :=
  match l with
  | [] => best
  | x :: l' => max_from (if (best <? x)%Z then x else best) l'
  end.
Fixpoint min_from (best : Z) (l : list Z) : Z :=
  match l with
  | [] => best
  | x :: l' => min_from (if (x <? best)%Z then x else best) l'
  end.
Fixpoint argmax_from (best : Z) (besti i : nat) (l : list Z) : nat :=
  match l with
  | [] => besti
  | x :: l' => if (best <? x)%Z then argmax_from x i (S i) l'
               else argmax_from best besti (S i) l'
  end.
Fixpoint argmin_from (best : Z) (besti i : nat) (l : list Z) : nat :=
  match l with
  | [] => besti
  | x :: l' => if (x <? best)%Z then argmin_from x i (S i) l'
               else argmin_from best besti (S i) l'
  end.
Definition np_max (l : list Z) : res Z :=
  match l with [] => Err ValueError | x :: l' => Ok (max_from x l') end.
Definition np_min (l : list Z) : res Z :=
  match l with [] => Err ValueError | x :: l' => Ok (min_from x l') end.
Definition np_argmax (l : list Z) : res nat :=
  match l with [] => Err ValueError | x :: l' => Ok (argmax_from x 0 1 l') end.
Definition np_argmin (l : list Z) : res nat :=
  match l with [] => Err ValueError | x :: l' => Ok (argmin_from x 0 1 l') end.

(** [xs[idx]] on a sequence *)
Definition index {A} (xs : list A) (idx : nat) : res A :=
  match xs !! idx with
  | Some x => Ok x
  | None => Err IndexError
  end.

(** ** The store of arrays and the monad of methods *)

Definition loc : Type := nat.
Abbreviation heap := (list ndarray).

(** A computation ends with a value, raises a Python exception, runs out
    of the fuel that bounds the recursion of the model, or follows an
    address that the store does not hold (which no Python reference can). *)
Inductive outcome (A : Type) : Type :=
| Done (a : A) (h : heap)
| Raise (e : exn) (h : heap)
| Fuel
| Dangling.
Arguments Done {A} a h.
Arguments Raise {A} e h.
Arguments Fuel {A}.
Arguments Dangling {A}.

Definition M (A : Type) : Type := heap -> outcome A.

Definition ret {A} (a : A) : M A := fun h => Done a h.

Definition bind {A B} (m : M A) (k : A -> M B) : M B :=
  fun h =>
    match m h with
    | Done a h' => k a h'
    | Raise e h' => Raise e h'
    | Fuel => Fuel
    | Dangling => Dangling
    end.

Notation "'let*' x ':=' m 'in' k" := (bind m (fun x => k))
  (at level 10, x pattern, m at level 100, k at level 200, only parsing).

Definition lift {A} (r : res A) : M A :=
  fun h => match r with Ok a => Done a h | Err e => Raise e h end.

Definition out_of_fuel {A} : M A := fun _ => Fuel.

(** A new array object. *)
Definition alloc (a : ndarray) : M loc :=
  fun h => Done (length h) (h ++ [a]).

(** The current value of an array object. *)
Definition deref (l : loc) : M ndarray :=
  fun h => match h !! l with Some a => Done a h | None => Dangling end.

(** Overwriting an array object in place. *)
Definition store (l : loc) (a : ndarray) : M unit :=
  fun h => match h !! l with
           | Some _ => Done tt (<[l := a]> h)
           | None => Dangling
           end.

(** [arr[i,j] = v] on the array object at [arr] *)
Definition setitem (arr : loc) (i j : nat) (v : Z) : M unit :=
  let* a := deref arr in
  let* a' := lift (np_setitem a i j v) in
  store arr a'.

(** [arr.copy()] *)
Definition ndarray_copy (arr : loc) : M loc :=
  let* a := deref arr in
  alloc a.

(** ** class Board *)

Module Board.

(** The object's only attribute, the address of its array. *)
Record t : Type := mk { __board : loc }.

Definition __init__ : M t :=
  let* b := alloc (np_zeros 3 3) in
  ret (mk b).

Definition erase_board (self : t) : M t :=
  let* b := alloc (np_zeros 3 3) in
  ret (mk b).

Definition play (self : t) (player row_i col_j : Z) : M bool :=
  let* board := deref (__board self) in
  let n_rows := Z.of_nat (fst (np_shape board)) in
  let n_cols := Z.of_nat (snd (np_shape board)) in
  if ((row_i <? 0) || (row_i >? n_rows - 1)
      || (col_j <? 0) || (col_j >? n_cols - 1))%Z
  then ret false
  else
    let* c := lift (np_getitem board (Z.to_nat row_i) (Z.to_nat col_j)) in
    if negb (c =? 0)%Z
    then ret false
    else
      let* _ := setitem (__board self) (Z.to_nat row_i) (Z.to_nat col_j) player in
      ret true.

(** The loop of [__check] over [range(3)], with the accumulator [win]. *)
Fixpoint check_loop (m : mask) (range : list nat) (win : bool) : res bool :=
  match range with
  | [] => Ok win
  | i :: range' =>
      res_bind (np_row m i) (fun r =>
      let win := win || np_all r in
      res_bind (np_col m i) (fun c =>
      let win := win || np_all c in
      check_loop m range' win))
  end.

Definition __check (m : mask) : res bool :=
  res_bind (check_loop m [0; 1; 2] false) (fun win =>
  let win := win || np_all (np_diagonal m) in
  let win := win || np_all (np_diagonal (np_fliplr m)) in
  Ok win).

(** The body of [check_board] on the value of the array. *)
Definition check_array (board : ndarray) : res Z :=
  let player_1_mask := np_eq board 1 in
  let player_2_mask := np_eq board 2 in
  res_bind (__check player_1_mask) (fun w1 =>
  if w1 then Ok 1%Z
  else
    res_bind (__check player_2_mask) (fun w2 =>
    if w2 then Ok 2%Z
    else Ok (if np_any (np_eq board 0) then 0 else -1)%Z)).

Definition check_board (self : t) : M Z :=
  let* board := deref (__board self) in
  lift (check_array board).

Definition get_board (self : t) : M loc :=
  ndarray_copy (__board self).

Definition set_board (self : t) (board : loc) : t :=
  mk board.

End Board.

(** ** class Agent *)

Module Agent.

Record t : Type := mk { player : Z }.

Definition move : Type := nat * nat.

(** The body of the loop over the candidate moves: [rec] is the
    recursive call, [scores] the list built so far. *)
Fixpoint for_moves (rec : loc -> Z -> M (Z * option move))
    (board : loc) (player : Z) (moves : list (nat * nat))
    (scores : list Z) : M (list Z) :=
  match moves with
  | [] => ret scores
  | (i, j) :: moves' =>
      let* tmp_board := ndarray_copy board in
      let* _ := setitem tmp_board i j player in
      let* (score, _) := rec tmp_board (if (player =? 2)%Z then 1 else 2)%Z in
      for_moves rec board player moves' (scores ++ [score])
  end.

Fixpoint read_board_fuel (fuel : nat) (self : t) (board : loc)
    (player : Z) : M (Z * option move) :=
  match fuel with
  | O => out_of_fuel
  | S fuel' =>
      let* tmp_board := Board.__init__ in
      let tmp_board := Board.set_board tmp_board board in
      let* value := Board.check_board tmp_board in
      if negb (value =? 0)%Z
      then
        let score :=
          (if (value =? -1)%Z then 0
           else if (value =? Agent.player self)%Z then 1
           else -1)%Z in
        ret (score, None)
      else
        let* a := deref board in
        let '(possible_moves_row, possible_moves_col) :=
          np_where (np_eq a 0) in
        let* scores := for_moves (read_board_fuel fuel' self) board player
                    (zip possible_moves_row possible_moves_col) [] in
        if (Agent.player self =? player)%Z
        then
          let* idx := lift (np_argmax scores) in
          let* best := lift (np_max scores) in
          let* r := lift (index possible_moves_row idx) in
          let* c := lift (index possible_moves_col idx) in
          ret (best, Some (r, c))
        else
          let* idx := lift (np_argmin scores) in
          let* best := lift (np_min scores) in
          let* r := lift (index possible_moves_row idx) in
          let* c := lift (index possible_moves_col idx) in
          ret (best, Some (r, c))
  end.

(** The number of Empty cells of an array. *)
Definition count_empty (a : ndarray) : nat :=
  length (where_from 0 (np_eq a 0)).

(** The search started with fuel for the whole game tree below the array
    at [board]: one level for each Empty cell, and two more. *)
Definition read_board (self : t) (board : loc) (player : Z)
    : M (Z * option move) :=
  fun h =>
    let fuel := match h !! board with
                | Some a => 2 + count_empty a
                | None => 1
                end in
    read_board_fuel fuel self board player h.

(** *** The search as a function of the array's value

    The same search without the store: every copy is a value.  It is
    what [read_board_fuel] computes (lemma [read_board_fuel_value]
    below), and it can be evaluated on whole game trees. *)

Definition value_bind {A B} (m : option (res A))
    (k : A -> option (res B)) : option (res B) :=
  match m with
  | Some (Ok a) => k a
  | Some (Err e) => Some (Err e)
  | None => None
  end.

Fixpoint scores_value (rec : ndarray -> Z -> option (res (Z * option move)))
    (a : ndarray) (player : Z) (moves : list (nat * nat))
    (scores : list Z) : option (res (list Z)) :=
  match moves with
  | [] => Some (Ok scores)
  | (i, j) :: moves' =>
      value_bind (Some (np_setitem a i j player)) (fun a' =>
      value_bind (rec a' (if (player =? 2)%Z then 1 else 2)%Z) (fun sm =>
      scores_value rec a player moves' (scores ++ [fst sm])))
  end.

Definition pick (self : t) (player : Z) (rows cols : list nat)
    (scores : list Z) : res (Z * option move) :=
  if (Agent.player self =? player)%Z
  then
    res_bind (np_argmax scores) (fun idx =>
    res_bind (np_max scores) (fun best =>
    res_bind (index rows idx) (fun r =>
    res_bind (index cols idx) (fun c =>
    Ok (best, Some (r, c))))))
  else
    res_bind (np_argmin scores) (fun idx =>
    res_bind (np_min scores) (fun best =>
    res_bind (index rows idx) (fun r =>
    res_bind (index cols idx) (fun c =>
    Ok (best, Some (r, c)))))).

Fixpoint read_value_fuel (fuel : nat) (self : t) (a : ndarray)
    (player : Z) : option (res (Z * option move)) :=
  match fuel with
  | O => None
  | S fuel' =>
      value_bind (Some (Board.check_array a)) (fun value =>
      if negb (value =? 0)%Z
      then
        let score :=
          (if (value =? -1)%Z then 0
           else if (value =? Agent.player self)%Z then 1
           else -1)%Z in
        Some (Ok (score, None))
      else
        let '(rows, cols) := np_where (np_eq a 0) in
        value_bind (scores_value (read_value_fuel fuel' self) a player
                      (zip rows cols) []) (fun scores =>
        Some (pick self player rows cols scores)))
  end.

Definition read_value (self : t) (a : ndarray) (player : Z)
    : option (res (Z * option move)) :=
  read_value_fuel (2 + count_empty a) self a player.

End Agent.

(** ** Boards of the game *)

(** The arrays that [Board] itself creates and keeps: shape (3,3), cells
    in the range of uint8. *)
Definition is_cell (c : Z) : Prop := (0 <= c < 256)%Z.
Definition is_board (a : ndarray) : Prop :=
  length a = 3 /\ Forall (fun r => length r = 3 /\ Forall is_cell r) a.

(** The scan order of the search: row 0, then row 1, then row 2, each from
    left to right. *)
Definition scan_order : list (nat * nat) :=
  [(0, 0); (0, 1); (0, 2); (1, 0); (1, 1); (1, 2); (2, 0); (2, 1); (2, 2)].

Definition cell_is (a : ndarray) (v : Z) (ij : nat * nat) : bool :=
  match np_getitem a (fst ij) (snd ij) with
  | Ok c => (c =? v)%Z
  | Err _ => false
  end.

(** The Empty cells of a board, in scan order. *)
Definition empty_cells (a : ndarray) : list (nat * nat) :=
  List.filter (cell_is a 0) scan_order.

(** The eight lines of the grid. *)
Definition lines : list (list (nat * nat)) :=
  [ [(0, 0); (0, 1); (0, 2)]; [(1, 0); (1, 1); (1, 2)]; [(2, 0); (2, 1); (2, 2)];
    [(0, 0); (1, 0); (2, 0)]; [(0, 1); (1, 1); (2, 1)]; [(0, 2); (1, 2); (2, 2)];
    [(0, 0); (1, 1); (2, 2)]; [(0, 2); (1, 1); (2, 0)] ].

(** Player [p] has three in a row: some line holds [p] in its three
    cells. *)
Definition three_in_a_row (a : ndarray) (p : Z) : Prop :=
  exists line, In line lines /\
    forall i j, In (i, j) line -> np_getitem a i j = Ok p.

Definition three_in_a_row_b (a : ndarray) (p : Z) : bool :=
  existsb (forallb (cell_is a p)) lines.

Definition has_empty (a : ndarray) : Prop :=
  exists i j, np_getitem a i j = Ok 0%Z.

(** The player that moves after [player] in the search. *)
Definition next_player (player : Z) : Z :=
  if (player =? 2)%Z then 1%Z else 2%Z.

(** A pure result seen as the outcome of a computation on a store. *)
Definition embed {A} (v : option (res A)) (h : heap) : outcome A :=
  match v with
  | Some (Ok a) => Done a h
  | Some (Err e) => Raise e h
  | None => Fuel
  end.

(** A position of a game in progress, used to run the operations on. *)
Definition sample_board : ndarray := [[1; 2; 1]; [0; 2; 0]; [0; 0; 0]]%Z.

(** A call that computes [recv] on the value of its array and only adds
    arrays to the store. *)
Definition computes (rec : loc -> Z -> M (Z * option Agent.move))
    (recv : ndarray -> Z -> option (res (Z * option Agent.move))) : Prop :=
  forall (l : loc) (p : Z) (h : heap) (a : ndarray),
    h !! l = Some a ->
    exists ext, rec l p h = embed (recv a p) (h ++ ext).

(** [sc] is the score that [recv] returns for the position reached from
    [a] when [p] plays the cell [ij]. *)
Definition child_score
    (recv : ndarray -> Z -> option (res (Z * option Agent.move)))
    (a : ndarray) (p : Z) (ij : nat * nat) (sc : Z) : Prop :=
  exists a' m,
    np_setitem a (fst ij) (snd ij) p = Ok a'
    /\ recv a' (next_player p) = Some (Ok (sc, m)).

(** [s] at index [idx] is the first maximum of [scores] when the agent
    moves, the first minimum when its opponent moves. *)
Definition first_best (self : Agent.t) (p : Z) (scores : list Z)
    (idx : nat) (s : Z) : Prop :=
  scores !! idx = Some s
  /\ if (Agent.player self =? p)%Z
     then forall k x, scores !! k = Some x ->
                      (x <= s)%Z /\ (k < idx -> (x < s)%Z)
     else forall k x, scores !! k = Some x ->
                      (s <= x)%Z /\ (k < idx -> (s < x)%Z).


(** A position where player 1 has won. *)
Definition won_board : ndarray := [[1; 1; 1]; [2; 2; 0]; [0; 0; 0]]%Z.

(** ** Arrays of other shapes *)

(** The arrays that [check_board] can index: three rows or more, each of
    three cells or more. *)
Definition indexable (a : ndarray) : Prop :=
  3 <= length a /\ Forall (fun r : list Z => 3 <= length r) a.

(** Every row has the number of columns of the shape. *)
Definition rectangular (a : ndarray) : Prop :=
  Forall (fun r : list Z => length r = snd (np_shape a)) a.

(** An array of shape (4,4), which [set_board] may be given. *)
Definition wide_board : ndarray :=
  [[0; 0; 0; 0]; [0; 0; 0; 0]; [0; 0; 0; 0]; [0; 0; 0; 0]]%Z.

(** ** The two agents *)

(** The result of a search with the score negated. *)
Definition negate (r : option (res (Z * option Agent.move)))
    : option (res (Z * option Agent.move)) :=
  match r with
  | Some (Ok (s, m)) => Some (Ok ((- s)%Z, m))
  | _ => r
  end.

Definition negate_scores (r : option (res (list Z))) : option (res (list Z)) :=
  match r with
  | Some (Ok l) => Some (Ok (Z.opp <$> l))
  | _ => r
  end.

(** The scores of the search. *)
Definition is_score (s : Z) : Prop := s = (-1)%Z \/ s = 0%Z \/ s = 1%Z.

(** ** The terminal *)

(** What the program does to the terminal: the text of a [print] call
    (with its end), the prompt of an [input] call, and
    [os.system('clear')]. *)
Inductive event : Type :=
| Print (s : string)
| Prompt (s : string)
| Clear.

(** The newline that ends a [print]. *)
Definition nl : string := String (Ascii.ascii_of_nat 10) "".

(** [str] of an integer, as [print] and [format] show it. *)
Definition str_nat (n : nat) : string :=
  NilEmpty.string_of_uint (Nat.to_uint n).
Definition str_Z (z : Z) : string :=
  NilZero.string_of_int (Z.to_int z).

(** The methods of [Board] that print, with what they print.  The value
    of a computation is paired with the events it sends to the terminal,
    in order. *)
Module Screen.

(** The three [if]s of [display_board] on one cell. *)
Definition display_cell (c : Z) : list event :=
  (if (c =? 0)%Z then [Print "+ "] else [])
  ++ (if (c =? 1)%Z then [Print "o "] else [])
  ++ (if (c =? 2)%Z then [Print "x "] else []).

(** The loop over [j] for the row [i]. *)
Fixpoint display_cols (board : ndarray) (i : nat) (cols : list nat)
    : res (list event) :=
  match cols with
  | [] => Ok []
  | j :: cols' =>
      res_bind (np_getitem board i j) (fun c =>
      res_bind (display_cols board i cols') (fun out =>
      Ok (display_cell c ++ out)))
  end.

(** The loop over [i]. *)
Fixpoint display_rows (board : ndarray) (rows cols : list nat)
    : res (list event) :=
  match rows with
  | [] => Ok []
  | i :: rows' =>
      res_bind (display_cols board i cols) (fun cells =>
      res_bind (display_rows board rows' cols) (fun out =>
      Ok (Print (str_nat i +:+ " ") :: cells ++ Print nl :: out)))
  end.

Definition display_board (self : Board.t) : M (unit * list event) :=
  let* board := deref (Board.__board self) in
  let '(n_rows, n_cols) := np_shape board in
  let* out := lift (display_rows board (seq 0 n_rows) (seq 0 n_cols)) in
  ret (tt, Print ("  0 1 2" +:+ nl) :: out).

(** [play] with its two diagnostics. *)
Definition play (self : Board.t) (player row_i col_j : Z)
    : M (bool * list event) :=
  let* board := deref (Board.__board self) in
  let n_rows := Z.of_nat (fst (np_shape board)) in
  let n_cols := Z.of_nat (snd (np_shape board)) in
  if ((row_i <? 0) || (row_i >? n_rows - 1)
      || (col_j <? 0) || (col_j >? n_cols - 1))%Z
  then ret (false, [Print ("Incorrect coordinate, please try again!" +:+ nl)])
  else
    let* c := lift (np_getitem board (Z.to_nat row_i) (Z.to_nat col_j)) in
    if negb (c =? 0)%Z
    then ret (false,
              [Print ("Cannot play on this grid, please try again!" +:+ nl)])
    else
      let* _ := setitem (Board.__board self) (Z.to_nat row_i)
                  (Z.to_nat col_j) player in
      ret (true, []).

End Screen.

(** The cells that hold a mark of the game or nothing. *)
Definition is_mark_or_empty (c : Z) : Prop := c = 0%Z \/ c = 1%Z \/ c = 2%Z.
Definition is_game_board (a : ndarray) : Prop :=
  length a = 3
  /\ Forall (fun r => length r = 3 /\ Forall is_mark_or_empty r) a.

(** The text of a cell that holds a mark of the game or nothing. *)
Definition glyph (c : Z) : string :=
  if (c =? 0)%Z then "+ " else if (c =? 1)%Z then "o " else "x ".

(** Two boards agree where [display_board] can tell: at every place the
    cells are equal, or neither is a mark of the game or Empty. *)
Definition same_on_screen (a b : ndarray) : Prop :=
  forall i j ca cb,
    np_getitem a i j = Ok ca -> np_getitem b i j = Ok cb ->
    ca = cb \/ (~ is_mark_or_empty ca /\ ~ is_mark_or_empty cb).

(** A board with a cell that is not a mark, as [play] with player 7
    leaves it. *)
Definition odd_board : ndarray := [[1; 2; 1]; [7; 2; 0]; [0; 0; 0]]%Z.

(** ** The script *)

(** The program under [if __name__ == "__main__"]: it reads lines from
    the input, prints, and calls the board and the agent. *)
Module Main.

(** The exceptions of the script: those of the board and the agent,
    [EOFError] of [input] at the end of the input, and [TypeError] of
    unpacking [None]. *)
Inductive pyexn : Type :=
| Core (e : exn)
| EOFError
| TypeError.

Inductive io_result (A : Type) : Type :=
| Ret (a : A) (h : heap) (inputs : list string)
| Exc (e : pyexn) (h : heap) (inputs : list string)
| No_fuel
| Bad_store.
Arguments Ret {A} a h inputs.
Arguments Exc {A} e h inputs.
Arguments No_fuel {A}.
Arguments Bad_store {A}.

(** A computation of the script: from the store and the lines still to
    read, the events sent to the terminal and the result. *)
Definition IO (A : Type) : Type :=
  heap -> list string -> list event * io_result A.

Definition io_ret {A} (a : A) : IO A := fun h inputs => ([], Ret a h inputs).

Definition io_bind {A B} (m : IO A) (k : A -> IO B) : IO B :=
  fun h inputs =>
    match m h inputs with
    | (out, Ret a h' inputs') =>
        let '(out', r) := k a h' inputs' in (out ++ out', r)
    | (out, Exc e h' inputs') => (out, Exc e h' inputs')
    | (out, No_fuel) => (out, No_fuel)
    | (out, Bad_store) => (out, Bad_store)
    end.

Notation "'let+' x ':=' m 'in' k" := (io_bind m (fun x => k))
  (at level 10, x pattern, m at level 100, k at level 200, only parsing).

Definition print (s : string) : IO unit :=
  fun h inputs => ([Print (s +:+ nl)], Ret tt h inputs).

Definition clear : IO unit :=
  fun h inputs => ([Clear], Ret tt h inputs).

(** [input(prompt)]: the next line, or [EOFError] when there is none. *)
Definition input (prompt : string) : IO string :=
  fun h inputs =>
    match inputs with
    | [] => ([Prompt prompt], Exc EOFError h [])
    | line :: inputs' => ([Prompt prompt], Ret line h inputs')
    end.

Definition raise {A} (e : pyexn) : IO A :=
  fun h inputs => ([], Exc e h inputs).

(** A method that prints, run by the script. *)
Definition call {A} (m : M (A * list event)) : IO A :=
  fun h inputs =>
    match m h with
    | Done (a, out) h' => (out, Ret a h' inputs)
    | Raise e h' => ([], Exc (Core e) h' inputs)
    | Fuel => ([], No_fuel)
    | Dangling => ([], Bad_store)
    end.

(** A method that does not print. *)
Definition quiet {A} (m : M A) : IO A :=
  call (let* a := m in ret (a, [])).

(** [try: body except ValueError: handler] *)
Definition try_except_ValueError {A} (body handler : IO A) : IO A :=
  fun h inputs =>
    match body h inputs with
    | (out, Exc (Core ValueError) h' inputs') =>
        let '(out', r) := handler h' inputs' in (out ++ out', r)
    | r => r
    end.

(** The variables of the loop: the board object and the counter of the
    moves. *)
Record vars : Type := mk { game : Board.t; player : nat }.

(** [ai_player = Agent()] *)
Definition ai_player : Agent.t := Agent.mk 2.

Section script.

(** [int] of a line: [None] stands for [ValueError]. *)
Variable int : string -> option Z.

Definition int_of (line : string) : IO Z :=
  match int line with
  | Some z => io_ret z
  | None => raise (Core ValueError)
  end.

(** The coordinates of the move: typed by the human, or computed by the
    agent on a snapshot of the board. *)
Definition turn (v : vars) : IO (Z * Z) :=
  if (player v mod 2 =? 0)%nat
  then
    let+ line := input "Input row: " in
    let+ row := int_of line in
    let+ line := input "Input col: " in
    let+ col := int_of line in
    io_ret (row, col)
  else
    let+ snapshot := quiet (Board.get_board (game v)) in
    let+ (score, move) := quiet (Agent.read_board ai_player snapshot 2) in
    match move with
    | None => raise TypeError
    | Some (row, col) =>
        let+ _ := print ("A.I. move: " +:+ str_nat row +:+ " "
                         +:+ str_nat col) in
        io_ret (Z.of_nat row, Z.of_nat col)
    end.

(** What follows a move that [play] accepted: the board is shown, and
    the game goes on with the next player, or it is over and the human
    is asked about another game. *)
Definition after_valid (player_name : string) (v : vars)
    : IO (option vars) :=
  let+ _ := call (Screen.display_board (game v)) in
  let+ value := quiet (Board.check_board (game v)) in
  if (value =? 0)%Z
  then io_ret (Some (mk (game v) (player v + 1)))
  else
    let+ _ :=
      if (value =? -1)%Z
      then print "No one win."
      else print ("Player " +:+ str_Z value +:+ " win!!!") in
    let+ answer := input "Do you want to play again? (y/n): " in
    if existsb (String.eqb answer) ["y"; "1"; "yes"]
    then
      let+ _ := clear in
      let+ game' := quiet (Board.erase_board (game v)) in
      let+ _ := call (Screen.display_board game') in
      io_ret (Some (mk game' 0))
    else
      let+ _ := print ("Thank you, " +:+ player_name
                       +:+ ", for playing. Bye bye!") in
      io_ret None.

(** One pass of the [while] loop: the variables for the next pass, or
    [None] after [break].  [ValueError] can only come from [turn], before
    any variable is assigned. *)
Definition body (player_name : string) (v : vars) : IO (option vars) :=
  try_except_ValueError
    (let+ (row, col) := turn v in
     let+ valid := call (Screen.play (game v)
                           (Z.of_nat (player v mod 2 + 1)) row col) in
     if valid : bool
     then after_valid player_name v
     else io_ret (Some v))
    (let+ _ := print "Bad input!" in io_ret (Some v)).

Fixpoint loop (fuel : nat) (player_name : string) (v : vars) : IO unit :=
  match fuel with
  | O => fun _ _ => ([], No_fuel)
  | S fuel' =>
      let+ next := body player_name v in
      match next with
      | Some v' => loop fuel' player_name v'
      | None => io_ret tt
      end
  end.

Definition main (fuel : nat) : IO unit :=
  let+ player_name := input "What is your name? " in
  let+ _ := print ("Welcome " +:+ player_name
                   +:+ " to my tic-tac-toe game! Beat my A.I. if you can :-))") in
  let+ game := quiet Board.__init__ in
  let+ _ := call (Screen.display_board game) in
  loop fuel player_name (mk game 0).

End script.

End Main.

(** A reading of decimal digits, to run the script on. *)
Definition digit_of (line : string) : option Z :=
  if String.eqb line "0" then Some 0%Z
  else if String.eqb line "1" then Some 1%Z
  else if String.eqb line "2" then Some 2%Z
  else if String.eqb line "3" then Some 3%Z
  else None.

(** ** Positions from which the agent of the script does not lose *)

(** What happens after the mark [p] is written at [ij] on [a]: the game
    goes on and [k] holds of the new position, or the game is over and
    player 1 has not won. *)
Definition after_mark (k : ndarray -> bool) (a : ndarray) (p : Z)
    (ij : nat * nat) : bool :=
  match np_setitem a (fst ij) (snd ij) p with
  | Ok a' =>
      match Board.check_array a' with
      | Ok v => if (v =? 0)%Z then k a' else negb (v =? 1)%Z
      | Err _ => false
      end
  | Err _ => false
  end.

(** The agent to move at [a]: it finds an Empty cell, and [k] holds
    after its move. *)
Definition agent_ok (k : ndarray -> bool) (a : ndarray) : bool :=
  match Agent.read_value Main.ai_player a 2 with
  | Some (Ok (_, Some ij)) => cell_is a 0 ij && after_mark k a 2 ij
  | _ => false
  end.

(** The human to move at [a], with at most [n] moves of the human to
    come: whatever Empty cell the human takes, player 1 has not won, and
    the agent's reply leads to such a position again. *)
Fixpoint human_ok (n : nat) (a : ndarray) : bool :=
  match n with
  | O => false
  | S n' => forallb (after_mark (agent_ok (human_ok n')) a 1) (empty_cells a)
  end.

(** The line that announces that the human has beaten the agent. *)
Definition human_wins : event := Print ("Player 1 win!!!" +:+ nl).

(** What bounds the passes of the loop that are left: two for each line
    still to read, and one when the agent is to move. *)
Definition passes_left (v : Main.vars) (inputs : list string) : nat :=
  2 * length inputs + Main.player v mod 2.

(** The positions of the loop of the script: the board holds a grid
    from which the agent does not lose. *)
Definition loop_invariant (h : heap) (v : Main.vars) : Prop :=
  exists a,
    h !! Board.__board (Main.game v) = Some a
    /\ is_board a
    /\ exists n,
         if (Main.player v mod 2 =? 0)%nat
         then human_ok n a = true
         else agent_ok (human_ok n) a = true.

(** The ways a run may end: the end of the script, or the end of the
    input. *)
Definition ends_well {A} (r : Main.io_result A) : Prop :=
  match r with
  | Main.Ret _ _ _ => True
  | Main.Exc Main.EOFError _ _ => True
  | _ => False
  end.

(** ** The marks on the board of the script *)

(** The number of cells of a board that hold [p]. *)
Definition count_mark (a : ndarray) (p : Z) : nat :=
  length (List.filter (cell_is a p) scan_order).

(** The board of the script holds marks of the game and Empty cells
    only, as many 1s as 2s when the human is to move, and one more when
    the agent is to move. *)
Definition alternating (h : heap) (v : Main.vars) : Prop :=
  exists a,
    h !! Board.__board (Main.game v) = Some a
    /\ is_game_board a
    /\ count_mark a 1 = count_mark a 2 + Main.player v mod 2.

(** * Properties *)

(** ** Arrays *)

Lemma is_board_inv (a : ndarray) :
  is_board a ->
  exists c00 c01 c02 c10 c11 c12 c20 c21 c22,
    a = [[c00; c01; c02]; [c10; c11; c12]; [c20; c21; c22]]
    /\ Forall is_cell [c00; c01; c02; c10; c11; c12; c20; c21; c22].
Proof.
  intros [Hlen Hrows].
  destruct a as [|r0 [|r1 [|r2 [|? ?]]]]; try discriminate.
  inversion Hrows as [|? ? [H0 C0] Hrows1]; subst.
  inversion Hrows1 as [|? ? [H1 C1] Hrows2]; subst.
  inversion Hrows2 as [|? ? [H2 C2] _]; subst.
  destruct r0 as [|c00 [|c01 [|c02 [|? ?]]]]; try discriminate.
  destruct r1 as [|c10 [|c11 [|c12 [|? ?]]]]; try discriminate.
  destruct r2 as [|c20 [|c21 [|c22 [|? ?]]]]; try discriminate.
  exists c00, c01, c02, c10, c11, c12, c20, c21, c22.
  split; [reflexivity|].
  repeat match goal with
         | H : Forall _ (_ :: _) |- _ => inversion H; clear H; subst
         end.
  repeat (apply List.Forall_cons; [assumption|]). apply List.Forall_nil.
Qed.

Lemma is_board_intro c00 c01 c02 c10 c11 c12 c20 c21 c22 :
  Forall is_cell [c00; c01; c02; c10; c11; c12; c20; c21; c22] ->
  is_board [[c00; c01; c02]; [c10; c11; c12]; [c20; c21; c22]].
Proof.
  intros H.
  repeat match goal with
         | H : Forall _ (_ :: _) |- _ => inversion H; clear H; subst
         end.
  split; [reflexivity|].
  repeat (apply List.Forall_cons; [split; [reflexivity|]|]);
    repeat (apply List.Forall_cons; [assumption|]); apply List.Forall_nil.
Qed.

Lemma sample_board_is_board : is_board sample_board.
Proof.
  apply is_board_intro. unfold is_cell.
  repeat (apply List.Forall_cons; [lia|]). apply List.Forall_nil.
Qed.

Lemma won_board_is_board : is_board won_board.
Proof.
  apply is_board_intro. unfold is_cell.
  repeat (apply List.Forall_cons; [lia|]). apply List.Forall_nil.
Qed.

(** ** [check_board] *)

Lemma cell_is_spec (a : ndarray) (p : Z) (i j : nat) :
  cell_is a p (i, j) = true <-> np_getitem a i j = Ok p.
Proof.
  unfold cell_is; simpl.
  destruct (np_getitem a i j) as [c|e]; split; intros H; try discriminate.
  - apply Z.eqb_eq in H. congruence.
  - inversion H; subst. apply Z.eqb_refl.
Qed.

Lemma three_in_a_row_b_spec (a : ndarray) (p : Z) :
  three_in_a_row_b a p = true <-> three_in_a_row a p.
Proof.
  unfold three_in_a_row_b, three_in_a_row.
  rewrite existsb_exists. split.
  - intros (line & Hin & Hall). exists line. split; [assumption|].
    intros i j Hij. apply cell_is_spec.
    rewrite forallb_forall in Hall. exact (Hall (i, j) Hij).
  - intros (line & Hin & Hall). exists line. split; [assumption|].
    apply forallb_forall. intros [i j] Hij. apply cell_is_spec. auto.
Qed.

Ltac board_cells a H :=
  let Hc := fresh "Hcells" in
  destruct (is_board_inv a H) as
    (?c00 & ?c01 & ?c02 & ?c10 & ?c11 & ?c12 & ?c20 & ?c21 & ?c22 & -> & Hc).

Lemma check_three_in_a_row (a : ndarray) (p : Z) :
  is_board a -> Board.__check (np_eq a p) = Ok (three_in_a_row_b a p).
Proof.
  intros Hb. board_cells a Hb.
  unfold three_in_a_row_b, cell_is. cbn.
  destruct (c00 =? p)%Z, (c01 =? p)%Z, (c02 =? p)%Z,
           (c10 =? p)%Z, (c11 =? p)%Z, (c12 =? p)%Z,
           (c20 =? p)%Z, (c21 =? p)%Z, (c22 =? p)%Z; reflexivity.
Qed.

Lemma any_empty_spec (a : ndarray) :
  is_board a -> (np_any (np_eq a 0) = true <-> has_empty a).
Proof.
  intros Hb. board_cells a Hb. unfold has_empty. cbn. split.
  - intros H.
    repeat (apply orb_prop in H; destruct H as [H|H]);
      try discriminate H; apply Z.eqb_eq in H; subst.
    + exists 0, 0; reflexivity.
    + exists 0, 1; reflexivity.
    + exists 0, 2; reflexivity.
    + exists 1, 0; reflexivity.
    + exists 1, 1; reflexivity.
    + exists 1, 2; reflexivity.
    + exists 2, 0; reflexivity.
    + exists 2, 1; reflexivity.
    + exists 2, 2; reflexivity.
  - intros (i & j & H).
    destruct i as [|[|[|i]]]; destruct j as [|[|[|j]]];
      cbn in H; try discriminate H; inversion H; subst; cbn;
      rewrite ?orb_true_r; reflexivity.
Qed.

(** The value of [check_board] on a board, case by case. *)
Lemma check_array_board (a : ndarray) :
  is_board a ->
  Board.check_array a =
    Ok (if three_in_a_row_b a 1 then 1
        else if three_in_a_row_b a 2 then 2
        else if np_any (np_eq a 0) then 0 else -1)%Z.
Proof.
  intros Hb. unfold Board.check_array.
  rewrite !check_three_in_a_row by assumption. unfold res_bind.
  destruct (three_in_a_row_b a 1); [reflexivity|].
  destruct (three_in_a_row_b a 2); reflexivity.
Qed.

Lemma check_board_array (self : Board.t) (h : heap) (a : ndarray) :
  h !! Board.__board self = Some a ->
  Board.check_board self h = embed (Some (Board.check_array a)) h.
Proof.
  intros Hl. unfold Board.check_board, bind, deref, lift. rewrite Hl.
  reflexivity.
Qed.

(** C4. On every board [check_board] returns one of the four outcomes 0
    (the game is not over), 1 (player 1 wins), 2 (player 2 wins) and -1 (no
    player wins), and leaves the store as it is.  It returns 0 exactly when
    neither player has three in a row and some cell is Empty, and -1
    exactly when neither player has three in a row and no cell is Empty. *)
Theorem check_board_outcome (self : Board.t) (h : heap) (a : ndarray) :
  h !! Board.__board self = Some a ->
  is_board a ->
  exists v : Z,
    Board.check_board self h = Done v h
    /\ (v = 0 \/ v = 1 \/ v = 2 \/ v = -1)%Z
    /\ (v = 0%Z <->
        ~ three_in_a_row a 1 /\ ~ three_in_a_row a 2 /\ has_empty a)
    /\ (v = (-1)%Z <->
        ~ three_in_a_row a 1 /\ ~ three_in_a_row a 2 /\ ~ has_empty a).
Proof.
  intros Hl Hb.
  rewrite (check_board_array self h a Hl), (check_array_board a Hb).
  pose proof (three_in_a_row_b_spec a 1) as L1.
  pose proof (three_in_a_row_b_spec a 2) as L2.
  pose proof (any_empty_spec a Hb) as E.
  eexists; split; [reflexivity|].
  destruct (three_in_a_row_b a 1), (three_in_a_row_b a 2),
    (np_any (np_eq a 0)); intuition (try discriminate; try lia).
Qed.

Lemma check_board_outcome_witness :
  exists v : Z,
    Board.check_board (Board.mk 0) [sample_board] = Done v [sample_board]
    /\ (v = 0 \/ v = 1 \/ v = 2 \/ v = -1)%Z
    /\ (v = 0%Z <->
        ~ three_in_a_row sample_board 1 /\ ~ three_in_a_row sample_board 2
        /\ has_empty sample_board)
    /\ (v = (-1)%Z <->
        ~ three_in_a_row sample_board 1 /\ ~ three_in_a_row sample_board 2
        /\ ~ has_empty sample_board).
Proof.
  exact (check_board_outcome (Board.mk 0) [sample_board] sample_board
           eq_refl sample_board_is_board).
Defined.

(** C5. When both players have three in a row, [check_board] returns 1,
    player 1's win, and raises nothing. *)
Theorem check_board_both_lines (self : Board.t) (h : heap) (a : ndarray) :
  h !! Board.__board self = Some a ->
  is_board a ->
  three_in_a_row a 1 ->
  three_in_a_row a 2 ->
  Board.check_board self h = Done 1%Z h.
Proof.
  intros Hl Hb H1 _.
  rewrite (check_board_array self h a Hl), (check_array_board a Hb).
  apply three_in_a_row_b_spec in H1. rewrite H1. reflexivity.
Qed.

Lemma check_board_both_lines_witness :
  three_in_a_row [[2; 2; 2]; [1; 1; 1]; [0; 0; 0]]%Z 1
  /\ three_in_a_row [[2; 2; 2]; [1; 1; 1]; [0; 0; 0]]%Z 2
  /\ Board.check_board (Board.mk 0) [[[2; 2; 2]; [1; 1; 1]; [0; 0; 0]]%Z]
     = Done 1%Z [[[2; 2; 2]; [1; 1; 1]; [0; 0; 0]]%Z].
Proof.
  assert (H1 : three_in_a_row [[2; 2; 2]; [1; 1; 1]; [0; 0; 0]]%Z 1)
    by (apply three_in_a_row_b_spec; reflexivity).
  assert (H2 : three_in_a_row [[2; 2; 2]; [1; 1; 1]; [0; 0; 0]]%Z 2)
    by (apply three_in_a_row_b_spec; reflexivity).
  split; [exact H1|]. split; [exact H2|].
  apply (check_board_both_lines (Board.mk 0)
           [[[2; 2; 2]; [1; 1; 1]; [0; 0; 0]]%Z]
           [[2; 2; 2]; [1; 1; 1]; [0; 0; 0]]%Z).
  - reflexivity.
  - apply is_board_intro. unfold is_cell.
    repeat (apply List.Forall_cons; [lia|]). apply List.Forall_nil.
  - exact H1.
  - exact H2.
Defined.

(** ** Reading and writing cells *)

Lemma np_getitem_Ok (a : ndarray) (i j : nat) (c : Z) :
  np_getitem a i j = Ok c <->
  exists r, a !! i = Some r /\ r !! j = Some c.
Proof.
  unfold np_getitem. split.
  - destruct (a !! i) as [r|]; [|discriminate].
    destruct (r !! j) as [v|] eqn:Hj; [|discriminate].
    intros H; inversion H; subst. eauto.
  - intros (r & -> & ->). reflexivity.
Qed.

Lemma np_setitem_Ok (a : ndarray) (i j : nat) (v : Z) (r : list Z) :
  a !! i = Some r -> j < length r ->
  np_setitem a i j v = Ok (<[i := <[j := to_uint8 v]> r]> a).
Proof.
  intros Hi Hj. unfold np_setitem. rewrite Hi.
  apply Nat.ltb_lt in Hj. rewrite Hj. reflexivity.
Qed.

Lemma np_setitem_inv (a a' : ndarray) (i j : nat) (v : Z) :
  np_setitem a i j v = Ok a' ->
  exists r, a !! i = Some r /\ j < length r
            /\ a' = <[i := <[j := to_uint8 v]> r]> a.
Proof.
  unfold np_setitem. destruct (a !! i) as [r|]; [|discriminate].
  destruct (j <? length r) eqn:Hj; [|discriminate].
  intros H; inversion H; subst. apply Nat.ltb_lt in Hj. eauto.
Qed.

Lemma np_getitem_setitem_eq (a a' : ndarray) (i j : nat) (v : Z) :
  np_setitem a i j v = Ok a' -> np_getitem a' i j = Ok (to_uint8 v).
Proof.
  intros H. apply np_setitem_inv in H as (r & Hi & Hj & ->).
  apply np_getitem_Ok. exists (<[j := to_uint8 v]> r). split.
  - apply list_lookup_insert_eq. eapply lookup_lt_Some; eassumption.
  - apply list_lookup_insert_eq. assumption.
Qed.

Lemma np_getitem_setitem_ne (a a' : ndarray) (i j i' j' : nat) (v : Z) :
  np_setitem a i j v = Ok a' -> (i', j') <> (i, j) ->
  np_getitem a' i' j' = np_getitem a i' j'.
Proof.
  intros H Hne. apply np_setitem_inv in H as (r & Hi & Hj & ->).
  unfold np_getitem.
  destruct (decide (i' = i)) as [->|Hi'].
  - rewrite list_lookup_insert_eq by (eapply lookup_lt_Some; eassumption).
    rewrite Hi. rewrite list_lookup_insert_ne by congruence. reflexivity.
  - rewrite list_lookup_insert_ne by congruence. reflexivity.
Qed.

Lemma to_uint8_cell (v : Z) : is_cell v -> to_uint8 v = v.
Proof. unfold is_cell, to_uint8. intros H. apply Z.mod_small, H. Qed.

Lemma to_uint8_is_cell (v : Z) : is_cell (to_uint8 v).
Proof. unfold is_cell, to_uint8. apply Z.mod_pos_bound. lia. Qed.

Lemma np_setitem_is_board (a a' : ndarray) (i j : nat) (v : Z) :
  is_board a -> np_setitem a i j v = Ok a' -> is_board a'.
Proof.
  intros [Hlen Hrows] H. apply np_setitem_inv in H as (r & Hi & Hj & ->).
  split; [rewrite length_insert; assumption|].
  apply Forall_insert; [assumption|].
  rewrite Forall_forall in Hrows.
  destruct (Hrows r) as [Hr Hc]; [eapply list_elem_of_lookup_2; eassumption|].
  split; [rewrite length_insert; assumption|].
  apply Forall_insert; [assumption|apply to_uint8_is_cell].
Qed.

(** ** [play] *)

Section play.
Variables (self : Board.t) (h : heap) (a : ndarray).
Hypothesis Hself : h !! Board.__board self = Some a.

Lemma play_out_of_range (player row_i col_j : Z) :
  (row_i < 0 \/ Z.of_nat (fst (np_shape a)) <= row_i
   \/ col_j < 0 \/ Z.of_nat (snd (np_shape a)) <= col_j)%Z ->
  Board.play self player row_i col_j h = Done false h.
Proof.
  intros Hr. unfold Board.play, bind, deref. rewrite Hself.
  replace ((row_i <? 0) || (row_i >? Z.of_nat (fst (np_shape a)) - 1)
           || (col_j <? 0) || (col_j >? Z.of_nat (snd (np_shape a)) - 1))%Z
    with true; [reflexivity|].
  symmetry. rewrite !orb_true_iff, !Z.ltb_lt, !Z.gtb_ltb, !Z.ltb_lt.
  lia.
Qed.

Lemma play_in_range (player row_i col_j : Z) :
  (0 <= row_i < Z.of_nat (fst (np_shape a)))%Z ->
  (0 <= col_j < Z.of_nat (snd (np_shape a)))%Z ->
  Board.play self player row_i col_j h =
    (let* c := lift (np_getitem a (Z.to_nat row_i) (Z.to_nat col_j)) in
     if negb (c =? 0)%Z then ret false
     else
       let* _ := setitem (Board.__board self) (Z.to_nat row_i)
                   (Z.to_nat col_j) player in
       ret true) h.
Proof.
  intros Hr Hc. unfold Board.play, bind at 1, deref. rewrite Hself.
  replace ((row_i <? 0) || (row_i >? Z.of_nat (fst (np_shape a)) - 1)
           || (col_j <? 0) || (col_j >? Z.of_nat (snd (np_shape a)) - 1))%Z
    with false; [reflexivity|].
  symmetry. rewrite !orb_false_iff, !Z.ltb_ge, !Z.gtb_ltb, !Z.ltb_ge.
  lia.
Qed.

Lemma play_occupied (player row_i col_j c : Z) :
  (0 <= row_i < Z.of_nat (fst (np_shape a)))%Z ->
  (0 <= col_j < Z.of_nat (snd (np_shape a)))%Z ->
  np_getitem a (Z.to_nat row_i) (Z.to_nat col_j) = Ok c -> c <> 0%Z ->
  Board.play self player row_i col_j h = Done false h.
Proof.
  intros Hr Hc Hget Hne. rewrite play_in_range by assumption.
  unfold bind, lift. rewrite Hget.
  apply Z.eqb_neq in Hne. rewrite Hne. reflexivity.
Qed.

Lemma play_empty (player row_i col_j : Z) :
  (0 <= row_i)%Z ->
  (0 <= col_j < Z.of_nat (snd (np_shape a)))%Z ->
  np_getitem a (Z.to_nat row_i) (Z.to_nat col_j) = Ok 0%Z ->
  exists a',
    np_setitem a (Z.to_nat row_i) (Z.to_nat col_j) player = Ok a'
    /\ Board.play self player row_i col_j h
       = Done true (<[Board.__board self := a']> h).
Proof.
  intros Hr Hc Hget.
  pose proof Hget as Hget'.
  apply np_getitem_Ok in Hget' as (r & Hi & Hj).
  assert (Hlt : Z.to_nat row_i < length a) by (eapply lookup_lt_Some; eassumption).
  exists (<[Z.to_nat row_i := <[Z.to_nat col_j := to_uint8 player]> r]> a).
  assert (Hset : np_setitem a (Z.to_nat row_i) (Z.to_nat col_j) player
                 = Ok (<[Z.to_nat row_i := <[Z.to_nat col_j := to_uint8 player]> r]> a)).
  { apply np_setitem_Ok; [assumption|]. eapply lookup_lt_Some; eassumption. }
  split; [exact Hset|].
  rewrite play_in_range by (try assumption; unfold np_shape; simpl fst; lia).
  unfold bind, lift, setitem, bind, deref, lift, store, ret.
  rewrite Hget. simpl. rewrite Hself, Hset, Hself. reflexivity.
Qed.
End play.

Lemma is_board_shape (a : ndarray) : is_board a -> np_shape a = (3, 3).
Proof. intros Hb. board_cells a Hb. reflexivity. Qed.

(** C6. A move outside the grid or on an occupied cell is refused: [play]
    returns False and the store, hence the grid, is what it was.  A move on
    an Empty cell of the grid is accepted: [play] returns True, the cell
    then holds the player's mark and no other cell of the grid, and no
    other array, has changed. *)
Theorem play_spec (self : Board.t) (h : heap) (a : ndarray)
    (player row_i col_j : Z) :
  h !! Board.__board self = Some a ->
  is_board a ->
  ((row_i < 0 \/ 3 <= row_i \/ col_j < 0 \/ 3 <= col_j
    \/ exists c, np_getitem a (Z.to_nat row_i) (Z.to_nat col_j) = Ok c
                 /\ c <> 0)%Z ->
   Board.play self player row_i col_j h = Done false h)
  /\ ((0 <= row_i < 3)%Z -> (0 <= col_j < 3)%Z ->
      np_getitem a (Z.to_nat row_i) (Z.to_nat col_j) = Ok 0%Z ->
      is_cell player ->
      exists a',
        Board.play self player row_i col_j h
          = Done true (<[Board.__board self := a']> h)
        /\ np_getitem a' (Z.to_nat row_i) (Z.to_nat col_j) = Ok player
        /\ forall i j, (i, j) <> (Z.to_nat row_i, Z.to_nat col_j) ->
                       np_getitem a' i j = np_getitem a i j).
Proof.
  intros Hself Hb. pose proof (is_board_shape a Hb) as Hshape. split.
  - intros Hbad.
    destruct (Z_lt_dec row_i 0) as [?|?];
      [apply (play_out_of_range self h a Hself); rewrite Hshape; simpl; lia|].
    destruct (Z_le_dec 3 row_i) as [?|?];
      [apply (play_out_of_range self h a Hself); rewrite Hshape; simpl; lia|].
    destruct (Z_lt_dec col_j 0) as [?|?];
      [apply (play_out_of_range self h a Hself); rewrite Hshape; simpl; lia|].
    destruct (Z_le_dec 3 col_j) as [?|?];
      [apply (play_out_of_range self h a Hself); rewrite Hshape; simpl; lia|].
    destruct Hbad as [?|[?|[?|[?|(c & Hget & Hne)]]]]; try lia.
    apply (play_occupied self h a Hself player row_i col_j c);
      try assumption; rewrite Hshape; simpl; lia.
  - intros Hr Hc Hget Hp.
    destruct (play_empty self h a Hself player row_i col_j) as (a' & Hset & Hplay);
      try assumption; [lia|rewrite Hshape; simpl; lia|].
    exists a'. split; [exact Hplay|]. split.
    + rewrite (np_getitem_setitem_eq _ _ _ _ _ Hset), (to_uint8_cell _ Hp).
      reflexivity.
    + intros i j Hne. exact (np_getitem_setitem_ne _ _ _ _ _ _ _ Hset Hne).
Qed.

Lemma play_spec_witness :
  Board.play (Board.mk 0) 1 5 1 [sample_board] = Done false [sample_board]
  /\ Board.play (Board.mk 0) 1 0 1 [sample_board] = Done false [sample_board]
  /\ exists a',
       Board.play (Board.mk 0) 1 1 0 [sample_board]
       = Done true (<[0 := a']> [sample_board])
       /\ np_getitem a' (Z.to_nat 1) (Z.to_nat 0) = Ok 1%Z
       /\ forall i j, (i, j) <> (Z.to_nat 1, Z.to_nat 0) ->
                      np_getitem a' i j = np_getitem sample_board i j.
Proof.
  pose proof sample_board_is_board as Hb.
  split; [|split].
  - apply (proj1 (play_spec (Board.mk 0) [sample_board] sample_board 1 5 1
                   eq_refl Hb)). lia.
  - apply (proj1 (play_spec (Board.mk 0) [sample_board] sample_board 1 0 1
                   eq_refl Hb)).
    do 4 right. exists 2%Z. split; [reflexivity|lia].
  - apply (proj2 (play_spec (Board.mk 0) [sample_board] sample_board 1 1 0
                   eq_refl Hb));
      [lia|lia|reflexivity|unfold is_cell; lia].
Defined.

(** C10. [play] does not check its [player] argument against the marks
    of the game.  With player 0 on an Empty cell of the grid it returns
    True and the store, hence the grid, is exactly what it was.  With any
    value that fits the uint8 cell, from 0 to 255, whether or not it is
    one of the marks 1 and 2, it returns True and the cell then holds
    that value as given. *)
Theorem play_player_unchecked (self : Board.t) (h : heap) (a : ndarray)
    (row_i col_j : Z) :
  h !! Board.__board self = Some a ->
  is_board a ->
  (0 <= row_i < 3)%Z -> (0 <= col_j < 3)%Z ->
  np_getitem a (Z.to_nat row_i) (Z.to_nat col_j) = Ok 0%Z ->
  Board.play self 0 row_i col_j h = Done true h
  /\ forall player : Z,
       is_cell player ->
       exists a',
         Board.play self player row_i col_j h
           = Done true (<[Board.__board self := a']> h)
         /\ np_getitem a' (Z.to_nat row_i) (Z.to_nat col_j) = Ok player.
Proof.
  intros Hself Hb Hr Hc Hget. pose proof (is_board_shape a Hb) as Hshape.
  assert (Hplay : forall player, exists a',
             np_setitem a (Z.to_nat row_i) (Z.to_nat col_j) player = Ok a'
             /\ Board.play self player row_i col_j h
                = Done true (<[Board.__board self := a']> h)).
  { intros player. apply play_empty; try assumption; [lia|].
    rewrite Hshape; simpl; lia. }
  split.
  - destruct (Hplay 0%Z) as (a' & Hset & ->). f_equal.
    apply np_setitem_inv in Hset as (r & Hi & Hj & ->).
    apply np_getitem_Ok in Hget as (r' & Hi' & Hj').
    assert (r' = r) by congruence; subst r'.
    change (to_uint8 0) with 0%Z.
    rewrite (list_insert_id r _ _ Hj'), (list_insert_id a _ _ Hi).
    apply list_insert_id, Hself.
  - intros player Hin. destruct (Hplay player) as (a' & Hset & Hp).
    exists a'. split; [exact Hp|].
    rewrite (np_getitem_setitem_eq _ _ _ _ _ Hset), (to_uint8_cell _ Hin).
    reflexivity.
Qed.

Lemma play_player_unchecked_witness :
  Board.play (Board.mk 0) 0 1 0 [sample_board] = Done true [sample_board]
  /\ exists a',
       Board.play (Board.mk 0) 7 1 0 [sample_board]
       = Done true (<[0 := a']> [sample_board])
       /\ np_getitem a' (Z.to_nat 1) (Z.to_nat 0) = Ok 7%Z.
Proof.
  pose proof sample_board_is_board as Hb.
  assert (H10 : np_getitem sample_board (Z.to_nat 1) (Z.to_nat 0) = Ok 0%Z)
    by reflexivity.
  assert (H7 : is_cell 7) by (unfold is_cell; lia).
  destruct (play_player_unchecked (Board.mk 0) [sample_board] sample_board
              1 0 eq_refl Hb
              ltac:(lia) ltac:(lia) H10) as [H0 Hany].
  split; [exact H0|exact (Hany 7%Z H7)].
Defined.

(** A value that does not fit the cell is not written as given: after
    [play] with player 300 on the Empty cell (1,0), the cell does not
    hold 300, which no uint8 cell can hold. *)
Lemma play_player_unchecked_counterexample :
  ~ exists a' h',
      Board.play (Board.mk 0) 300 1 0 [sample_board] = Done true h'
      /\ h' !! 0 = Some a'
      /\ np_getitem a' 1 0 = Ok 300%Z.
Proof.
  intros (a' & h' & Hplay & Hl & Hget).
  vm_compute in Hplay. inversion Hplay; subst h'.
  simpl in Hl. inversion Hl; subst a'.
  vm_compute in Hget. discriminate Hget.
Qed.

(** ** [get_board] and [set_board] *)

Lemma get_board_copy (self : Board.t) (h : heap) (a : ndarray) :
  h !! Board.__board self = Some a ->
  Board.get_board self h = Done (length h) (h ++ [a]).
Proof.
  intros Hl. unfold Board.get_board, ndarray_copy, bind, deref, alloc.
  rewrite Hl. reflexivity.
Qed.

Lemma setitem_store (arr : loc) (i j : nat) (v : Z) (h : heap)
    (a a' : ndarray) :
  h !! arr = Some a -> np_setitem a i j v = Ok a' ->
  setitem arr i j v h = Done tt (<[arr := a']> h).
Proof.
  intros Hl Hset. unfold setitem, bind, deref, lift, store.
  rewrite Hl, Hset, Hl. reflexivity.
Qed.

(** C9. [set_board] keeps the address it is given: there is no copy and
    no check of what the address holds.  From then on the caller's array
    and the board's array are one object.  A cell that the caller writes
    in its array is what [check_board] and [get_board] of the board read;
    a move that [play] accepts on the board is written in the caller's
    array.  The copy that [get_board] returns is another object: writing
    in the copy leaves the board's array as it was, and writing in the
    board's array leaves the copy as it was. *)
Theorem set_board_shares (self : Board.t) (b : loc) (h : heap)
    (a : ndarray) :
  h !! b = Some a ->
  Board.__board (Board.set_board self b) = b
  /\ (forall i j v a', np_setitem a i j v = Ok a' ->
      exists h',
        setitem b i j v h = Done tt h'
        /\ Board.check_board (Board.set_board self b) h'
           = lift (Board.check_array a') h'
        /\ Board.get_board (Board.set_board self b) h'
           = Done (length h') (h' ++ [a']))
  /\ (forall player row_i col_j,
      (0 <= row_i)%Z -> (0 <= col_j < Z.of_nat (snd (np_shape a)))%Z ->
      np_getitem a (Z.to_nat row_i) (Z.to_nat col_j) = Ok 0%Z ->
      exists a' h',
        Board.play (Board.set_board self b) player row_i col_j h
          = Done true h'
        /\ deref b h' = Done a' h'
        /\ np_getitem a' (Z.to_nat row_i) (Z.to_nat col_j)
           = Ok (to_uint8 player))
  /\ (exists c,
       Board.get_board (Board.set_board self b) h = Done c (h ++ [a])
       /\ c <> b
       /\ forall i j v a', np_setitem a i j v = Ok a' ->
            (exists h', setitem c i j v (h ++ [a]) = Done tt h'
                        /\ h' !! b = Some a /\ h' !! c = Some a')
            /\ (exists h', setitem b i j v (h ++ [a]) = Done tt h'
                           /\ h' !! b = Some a' /\ h' !! c = Some a)).
Proof.
  intros Hl. pose proof (lookup_lt_Some _ _ _ Hl) as Hlt.
  split; [reflexivity|]. split; [|split].
  - intros i j v a' Hset. exists (<[b := a']> h).
    assert (Hl' : <[b := a']> h !! b = Some a')
      by (apply list_lookup_insert_eq; assumption).
    split; [exact (setitem_store b i j v h a a' Hl Hset)|]. split.
    + unfold Board.check_board, bind, deref. simpl. rewrite Hl'. reflexivity.
    + apply get_board_copy. exact Hl'.
  - intros player row_i col_j Hr Hc Hget.
    destruct (play_empty (Board.set_board self b) h a Hl player row_i col_j
                Hr Hc Hget) as (a' & Hset & Hplay).
    exists a', (<[b := a']> h). split; [exact Hplay|]. split.
    + unfold deref. rewrite list_lookup_insert_eq by assumption. reflexivity.
    + exact (np_getitem_setitem_eq _ _ _ _ _ Hset).
  - exists (length h). split; [apply get_board_copy; exact Hl|].
    split; [lia|].
    intros i j v a' Hset. split.
    + exists (h ++ [a']). split; [|split].
      * rewrite (setitem_store (length h) i j v (h ++ [a]) a a');
          [|apply list_lookup_middle; reflexivity|assumption].
        rewrite insert_app_r_alt, Nat.sub_diag by lia. reflexivity.
      * rewrite lookup_app_l by assumption. exact Hl.
      * apply list_lookup_middle. reflexivity.
    + exists (<[b := a']> h ++ [a]). split; [|split].
      * rewrite (setitem_store b i j v (h ++ [a]) a a');
          [|rewrite lookup_app_l by assumption; exact Hl|assumption].
        rewrite insert_app_l by assumption. reflexivity.
      * rewrite lookup_app_l by (rewrite length_insert; assumption).
        apply list_lookup_insert_eq. assumption.
      * apply list_lookup_middle. rewrite length_insert. reflexivity.
Qed.

Lemma set_board_shares_witness :
  exists h',
    setitem 1 2 1 2 [np_zeros 3 3; sample_board] = Done tt h'
    /\ Board.check_board (Board.mk 1) [np_zeros 3 3; sample_board]
       = Done 0%Z [np_zeros 3 3; sample_board]
    /\ Board.check_board (Board.set_board (Board.mk 0) 1) h' = Done 2%Z h'.
Proof.
  destruct (set_board_shares (Board.mk 0) 1 [np_zeros 3 3; sample_board]
              sample_board eq_refl) as (_ & Hcaller & _).
  destruct (Hcaller 2 1 2%Z _ eq_refl) as (h' & Hset & Hcheck & _).
  exists h'. split; [exact Hset|]. split; [reflexivity|].
  rewrite Hcheck. reflexivity.
Defined.

(** An array of another shape is installed like any other; the error
    comes later, from the first operation that indexes it. *)
Example set_board_any_shape :
  Board.check_board (Board.set_board (Board.mk 0) 1)
    [np_zeros 3 3; [[1; 1]; [1; 1]]%Z]
  = Raise IndexError [np_zeros 3 3; [[1; 1]; [1; 1]]%Z].
Proof. reflexivity. Qed.

(** ** The search computes a function of the array's value *)

Lemma setitem_raise (arr : loc) (i j : nat) (v : Z) (h : heap)
    (a : ndarray) (e : exn) :
  h !! arr = Some a -> np_setitem a i j v = Err e ->
  setitem arr i j v h = Raise e h.
Proof.
  intros Hl Hset. unfold setitem, bind, deref, lift. rewrite Hl, Hset.
  reflexivity.
Qed.

Lemma for_moves_value rec recv (board : loc) (player : Z) :
  computes rec recv ->
  forall (moves : list (nat * nat)) (scores : list Z) (h : heap)
         (a : ndarray),
    h !! board = Some a ->
    exists ext,
      Agent.for_moves rec board player moves scores h
      = embed (Agent.scores_value recv a player moves scores) (h ++ ext).
Proof.
  intros Hrec moves.
  induction moves as [|[i j] moves IH]; intros scores h a Hl.
  - exists []. rewrite app_nil_r. reflexivity.
  - pose proof (lookup_lt_Some _ _ _ Hl) as Hlt.
    assert (Hnew : (h ++ [a]) !! length h = Some a)
      by (apply list_lookup_middle; reflexivity).
    cbn [Agent.for_moves Agent.scores_value Agent.value_bind].
    unfold bind at 1, ndarray_copy, bind at 1, deref, alloc.
    rewrite Hl. unfold bind at 1.
    destruct (np_setitem a i j player) as [a'|e] eqn:Hset.
    + rewrite (setitem_store _ _ _ _ _ _ _ Hnew Hset).
      rewrite insert_app_r_alt, Nat.sub_diag by lia. cbn [insert list_insert].
      destruct (Hrec (length h) (if (player =? 2)%Z then 1 else 2)%Z
                  (h ++ [a']) a') as [ext Hcall];
        [apply list_lookup_middle; reflexivity|].
      unfold bind. rewrite Hcall.
      destruct (recv a' (if (player =? 2)%Z then 1 else 2)%Z)
        as [[[score m]|e]|]; cbn [embed Agent.value_bind fst].
      * destruct (IH (scores ++ [score]) ((h ++ [a']) ++ ext) a)
          as [ext' Hrest].
        { rewrite <- app_assoc. rewrite lookup_app_l by assumption. exact Hl. }
        exists ([a'] ++ ext ++ ext'). rewrite Hrest.
        rewrite <- !app_assoc. reflexivity.
      * exists ([a'] ++ ext). rewrite <- !app_assoc. reflexivity.
      * exists []. reflexivity.
    + rewrite (setitem_raise _ _ _ _ _ _ _ Hnew Hset).
      exists [a]. reflexivity.
Qed.

Lemma read_board_fuel_value (fuel : nat) (self : Agent.t) :
  computes (Agent.read_board_fuel fuel self) (Agent.read_value_fuel fuel self).
Proof.
  induction fuel as [|fuel IH]; intros board player h a Hl.
  - exists []. reflexivity.
  - pose proof (lookup_lt_Some _ _ _ Hl) as Hlt.
    set (h1 := h ++ [np_zeros 3 3]).
    assert (Hl1 : h1 !! board = Some a)
      by (unfold h1; rewrite lookup_app_l by assumption; exact Hl).
    cbn [Agent.read_board_fuel Agent.read_value_fuel Agent.value_bind].
    unfold bind at 1, Board.__init__, bind at 1, alloc, ret.
    fold h1. unfold bind at 1.
    rewrite (check_board_array (Board.set_board _ board) h1 a Hl1).
    destruct (Board.check_array a) as [value|e]; cbn [embed];
      [|exists [np_zeros 3 3]; reflexivity].
    destruct (negb (value =? 0)%Z); [exists [np_zeros 3 3]; reflexivity|].
    unfold bind at 1, deref. rewrite Hl1.
    destruct (np_where (np_eq a 0)) as [rows cols].
    destruct (for_moves_value _ _ board player IH (zip rows cols) [] h1 a Hl1)
      as [ext Hloop].
    unfold bind at 1. rewrite Hloop.
    destruct (Agent.scores_value (Agent.read_value_fuel fuel self) a player
                (zip rows cols) []) as [[scores|e]|];
      cbn [embed Agent.value_bind];
      [|exists ([np_zeros 3 3] ++ ext); unfold h1; rewrite <- app_assoc;
        reflexivity|exists []; reflexivity].
    exists ([np_zeros 3 3] ++ ext). rewrite app_assoc. fold h1.
    unfold Agent.pick, bind, lift, ret, res_bind.
    destruct (Agent.player self =? player)%Z.
    + destruct (np_argmax scores) as [idx|?]; [|reflexivity].
      destruct (np_max scores) as [best|?]; [|reflexivity].
      destruct (index rows idx) as [r|?]; [|reflexivity].
      destruct (index cols idx) as [c|?]; reflexivity.
    + destruct (np_argmin scores) as [idx|?]; [|reflexivity].
      destruct (np_min scores) as [best|?]; [|reflexivity].
      destruct (index rows idx) as [r|?]; [|reflexivity].
      destruct (index cols idx) as [c|?]; reflexivity.
Qed.

(** ** [np.argmax] and [np.argmin] *)

Lemma argmax_from_spec (l : list Z) :
  forall (best : Z) (besti i : nat),
    besti < i ->
    let M := max_from best l in
    let I := argmax_from best besti i l in
    (best <= M)%Z
    /\ (forall k x, l !! k = Some x -> (x <= M)%Z)
    /\ ((I = besti /\ M = best)
        \/ exists k, I = i + k /\ l !! k = Some M /\ (best < M)%Z)
    /\ (forall k x, l !! k = Some x -> i + k < I -> (x < M)%Z).
Proof.
  induction l as [|x l IH]; intros best besti i Hlt; cbn zeta.
  - simpl. split; [lia|]. split; [intros k y Hk; discriminate Hk|].
    split; [left; split; reflexivity|intros k y Hk; discriminate Hk].
  - simpl. destruct (best <? x)%Z eqn:Hcmp.
    + apply Z.ltb_lt in Hcmp.
      destruct (IH x i (S i) ltac:(lia)) as (Ha & Hb & Hc & Hd).
      split; [lia|]. split; [|split].
      * intros [|k] y Hk; simpl in Hk; [inversion Hk; subst; lia|eauto].
      * right. destruct Hc as [[-> ->]|(k & -> & Hk & Hlt')].
        -- exists 0. rewrite Nat.add_0_r. repeat split; try reflexivity; lia.
        -- exists (S k). split; [lia|]. split; [exact Hk|lia].
      * intros [|k] y Hk HI; simpl in Hk.
        -- inversion Hk; subst.
           destruct Hc as [[HI' _]|(k & _ & _ & Hlt')]; lia.
        -- apply (Hd k y Hk). lia.
    + apply Z.ltb_ge in Hcmp.
      destruct (IH best besti (S i) ltac:(lia)) as (Ha & Hb & Hc & Hd).
      split; [lia|]. split; [|split].
      * intros [|k] y Hk; simpl in Hk; [inversion Hk; subst; lia|eauto].
      * destruct Hc as [[HI HM]|(k & HI & Hk & Hlt')].
        -- left; split; assumption.
        -- right. exists (S k). split; [lia|]. split; [exact Hk|lia].
      * intros [|k] y Hk HI; simpl in Hk.
        -- inversion Hk; subst.
           destruct Hc as [[HI' _]|(k & _ & _ & Hlt')]; lia.
        -- apply (Hd k y Hk). lia.
Qed.

(** [np.argmax] returns the first index that holds the maximum. *)
Lemma np_argmax_spec (l : list Z) :
  l <> [] ->
  exists idx best,
    np_argmax l = Ok idx /\ np_max l = Ok best
    /\ l !! idx = Some best
    /\ forall k x, l !! k = Some x ->
                   (x <= best)%Z /\ (k < idx -> (x < best)%Z).
Proof.
  destruct l as [|x l]; [congruence|]. intros _.
  destruct (argmax_from_spec l x 0 1 ltac:(lia)) as (Ha & Hb & Hc & Hd).
  exists (argmax_from x 0 1 l), (max_from x l).
  split; [reflexivity|]. split; [reflexivity|]. split.
  - destruct Hc as [[-> ->]|(k & -> & Hk & _)]; [reflexivity|exact Hk].
  - intros [|k] y Hk; simpl in Hk.
    + inversion Hk; subst. split; [lia|].
      intros HI. destruct Hc as [[HI' _]|(k & _ & _ & Hlt')]; lia.
    + split; [eauto|]. intros HI. apply (Hd k y Hk). lia.
Qed.

Lemma min_from_opp (l : list Z) (best : Z) :
  min_from best l = (- max_from (- best) (Z.opp <$> l))%Z.
Proof.
  revert best. induction l as [|x l IH]; intros best; simpl; [lia|].
  rewrite IH. replace (- best <? - x)%Z with (x <? best)%Z
    by (rewrite eq_iff_eq_true, !Z.ltb_lt; lia).
  destruct (x <? best)%Z; reflexivity.
Qed.

Lemma argmin_from_opp (l : list Z) (best : Z) (besti i : nat) :
  argmin_from best besti i l
  = argmax_from (- best) besti i (Z.opp <$> l).
Proof.
  revert best besti i. induction l as [|x l IH]; intros best besti i; simpl;
    [reflexivity|].
  rewrite !IH. replace (- best <? - x)%Z with (x <? best)%Z
    by (rewrite eq_iff_eq_true, !Z.ltb_lt; lia).
  reflexivity.
Qed.

(** [np.argmin] returns the first index that holds the minimum. *)
Lemma np_argmin_spec (l : list Z) :
  l <> [] ->
  exists idx best,
    np_argmin l = Ok idx /\ np_min l = Ok best
    /\ l !! idx = Some best
    /\ forall k x, l !! k = Some x ->
                   (best <= x)%Z /\ (k < idx -> (best < x)%Z).
Proof.
  intros Hne.
  destruct (np_argmax_spec (Z.opp <$> l)) as (idx & best & HI & HM & Hk & Hall).
  { destruct l; [congruence|discriminate]. }
  destruct l as [|x l]; [congruence|].
  rewrite fmap_cons in HI, HM. unfold np_argmax, np_max in HI, HM.
  inversion HI as [HI']. inversion HM as [HM'].
  exists idx, (- best)%Z. unfold np_argmin, np_min.
  rewrite argmin_from_opp, min_from_opp, HI', HM'.
  split; [reflexivity|]. split; [reflexivity|]. split.
  - rewrite list_lookup_fmap in Hk.
    destruct ((x :: l) !! idx) as [y|]; simpl in Hk; [|discriminate].
    inversion Hk; subst. f_equal. lia.
  - intros k y Hy.
    destruct (Hall k (- y)%Z) as [H1 H2].
    { rewrite list_lookup_fmap, Hy. reflexivity. }
    split; [lia|]. intros Hlt. specialize (H2 Hlt). lia.
Qed.

(** ** Candidate moves *)

(** [np.where(board == 0)] lists the Empty cells in scan order. *)
Lemma where_empty_cells (a : ndarray) :
  is_board a -> where_from 0 (np_eq a 0) = empty_cells a.
Proof.
  intros Hb. board_cells a Hb. unfold empty_cells, cell_is. cbn.
  destruct (c00 =? 0)%Z, (c01 =? 0)%Z, (c02 =? 0)%Z,
           (c10 =? 0)%Z, (c11 =? 0)%Z, (c12 =? 0)%Z,
           (c20 =? 0)%Z, (c21 =? 0)%Z, (c22 =? 0)%Z; reflexivity.
Qed.

Lemma candidates_empty_cells (a : ndarray) :
  is_board a ->
  let '(rows, cols) := np_where (np_eq a 0) in
  zip rows cols = empty_cells a.
Proof.
  intros Hb. unfold np_where. rewrite zip_fst_snd.
  apply where_empty_cells, Hb.
Qed.

Lemma where_from_nil (m : mask) (k : nat) :
  where_from k m = [] <-> np_any m = false.
Proof.
  assert (Hrow : forall (r : list bool) (i j : nat),
             where_row i j r = [] <-> existsb id r = false).
  { induction r as [|b r IH]; intros i j; simpl; [tauto|].
    destruct b; simpl; [split; discriminate|apply IH]. }
  revert k. induction m as [|r m IH]; intros k; simpl; [tauto|].
  unfold np_any in IH. rewrite orb_false_iff, <- IH, <- Hrow.
  split.
  - intros H. apply app_eq_nil in H. exact H.
  - intros [-> ->]. reflexivity.
Qed.

Lemma empty_cells_spec (a : ndarray) (i j : nat) :
  In (i, j) (empty_cells a) <->
  In (i, j) scan_order /\ np_getitem a i j = Ok 0%Z.
Proof.
  unfold empty_cells. rewrite filter_In, cell_is_spec. reflexivity.
Qed.

Lemma scan_order_NoDup : List.NoDup scan_order.
Proof.
  unfold scan_order.
  repeat (apply List.NoDup_cons;
          [simpl; intros H;
           repeat (destruct H as [H|H]; [discriminate H|]); exact H|]).
  apply List.NoDup_nil.
Qed.

Lemma filter_count_le {A} (f g : A -> bool) (l : list A) :
  (forall x, In x l -> f x = true -> g x = true) ->
  length (List.filter f l) <= length (List.filter g l).
Proof.
  induction l as [|x l IH]; intros H; simpl; [lia|].
  assert (IH' : length (List.filter f l) <= length (List.filter g l))
    by (apply IH; intros y Hy; apply H; right; exact Hy).
  destruct (f x) eqn:Hf.
  - rewrite (H x (or_introl eq_refl) Hf). simpl. lia.
  - destruct (g x); simpl; lia.
Qed.

Lemma filter_count_lt {A} (f g : A -> bool) (l : list A) (x : A) :
  List.NoDup l -> In x l -> f x = false -> g x = true ->
  (forall y, In y l -> f y = true -> g y = true) ->
  length (List.filter f l) < length (List.filter g l).
Proof.
  induction l as [|y l IH]; intros Hnd Hin Hf Hg H; simpl; [destruct Hin|].
  inversion Hnd as [|? ? Hny Hnd']; subst.
  destruct Hin as [->|Hin].
  - rewrite Hf, Hg. simpl.
    assert (length (List.filter f l) <= length (List.filter g l)); [|lia].
    apply filter_count_le. intros z Hz. apply H. right; exact Hz.
  - assert (IH' : length (List.filter f l) < length (List.filter g l)).
    { apply IH; try assumption. intros z Hz. apply H. right; exact Hz. }
    destruct (f y) eqn:Hfy.
    + rewrite (H y (or_introl eq_refl) Hfy). simpl. lia.
    + destruct (g y); simpl; lia.
Qed.

Lemma count_empty_board (a : ndarray) :
  is_board a -> Agent.count_empty a = length (empty_cells a).
Proof.
  intros Hb. unfold Agent.count_empty. rewrite where_empty_cells by assumption.
  reflexivity.
Qed.

Section child.
Variables (a a' : ndarray) (i j : nat) (v : Z).
Hypothesis Hb : is_board a.
Hypothesis Hempty : In (i, j) (empty_cells a).
Hypothesis Hset : np_setitem a i j v = Ok a'.

Lemma child_cell_is (ij : nat * nat) :
  cell_is a' 0 ij = true -> cell_is a 0 ij = true.
Proof.
  destruct ij as [i' j']. destruct (decide ((i', j') = (i, j))) as [Heq|Hne].
  - inversion Heq; subst. intros _. apply cell_is_spec.
    apply empty_cells_spec in Hempty. apply Hempty.
  - unfold cell_is; simpl.
    rewrite (np_getitem_setitem_ne _ _ _ _ _ _ _ Hset Hne). tauto.
Qed.

(** A move never adds an Empty cell. *)
Lemma child_count_le : Agent.count_empty a' <= Agent.count_empty a.
Proof.
  rewrite !count_empty_board
    by (try assumption; eapply np_setitem_is_board; eassumption).
  apply filter_count_le. intros ij _. apply child_cell_is.
Qed.

(** A move that writes a mark removes an Empty cell. *)
Lemma child_count_lt :
  to_uint8 v <> 0%Z -> Agent.count_empty a' < Agent.count_empty a.
Proof.
  intros Hv.
  rewrite !count_empty_board
    by (try assumption; eapply np_setitem_is_board; eassumption).
  pose proof Hempty as Hin. apply empty_cells_spec in Hin as [Hin Hget].
  apply (filter_count_lt _ _ _ (i, j)).
  - apply scan_order_NoDup.
  - exact Hin.
  - unfold cell_is; simpl. rewrite (np_getitem_setitem_eq _ _ _ _ _ Hset).
    apply Z.eqb_neq, Hv.
  - apply cell_is_spec, Hget.
  - intros ij _. apply child_cell_is.
Qed.
End child.

Lemma empty_cell_setitem (a : ndarray) (i j : nat) (v : Z) :
  In (i, j) (empty_cells a) -> exists a', np_setitem a i j v = Ok a'.
Proof.
  intros H. apply empty_cells_spec in H as [_ Hget].
  apply np_getitem_Ok in Hget as (r & Hi & Hj).
  eexists. apply np_setitem_Ok; [eassumption|].
  eapply lookup_lt_Some; eassumption.
Qed.

(** ** One level of the search *)

Lemma scores_value_ok recv (a : ndarray) (p : Z) :
  forall (moves : list (nat * nat)) (scores : list Z),
    (forall ij, In ij moves -> exists sc, child_score recv a p ij sc) ->
    exists scores',
      Agent.scores_value recv a p moves scores = Some (Ok (scores ++ scores'))
      /\ Forall2 (child_score recv a p) moves scores'.
Proof.
  induction moves as [|[i j] moves IH]; intros scores Hall.
  - exists []. rewrite app_nil_r. split; [reflexivity|constructor].
  - destruct (Hall (i, j) (or_introl eq_refl)) as (sc & a' & m & Hset & Hrec).
    destruct (IH (scores ++ [sc])) as (scores' & Hrest & HR).
    { intros ij Hij. apply Hall. right; exact Hij. }
    exists (sc :: scores'). split.
    + cbn [Agent.scores_value Agent.value_bind]. simpl in Hset. rewrite Hset.
      unfold next_player in Hrec. rewrite Hrec.
      cbn [Agent.value_bind fst]. rewrite Hrest, <- app_assoc. reflexivity.
    + constructor; [|exact HR]. exists a', m. split; assumption.
Qed.

Lemma pick_first_best (self : Agent.t) (p : Z) (cells : list (nat * nat))
    (scores : list Z) :
  cells <> [] -> length scores = length cells ->
  exists idx s ij,
    Agent.pick self p (fst <$> cells) (snd <$> cells) scores
    = Ok (s, Some ij)
    /\ cells !! idx = Some ij
    /\ first_best self p scores idx s.
Proof.
  intros Hne Hlen.
  assert (Hsne : scores <> []).
  { destruct scores; [|discriminate]. destruct cells; [congruence|discriminate]. }
  assert (Hidx : forall idx s, scores !! idx = Some s ->
            exists ij, cells !! idx = Some ij
              /\ index (fst <$> cells) idx = Ok (fst ij)
              /\ index (snd <$> cells) idx = Ok (snd ij)).
  { intros idx s Hs. apply lookup_lt_Some in Hs. rewrite Hlen in Hs.
    destruct (lookup_lt_is_Some_2 cells idx Hs) as [ij Hij].
    exists ij. unfold index. rewrite !list_lookup_fmap, Hij. auto. }
  unfold Agent.pick, first_best. destruct (Agent.player self =? p)%Z.
  - destruct (np_argmax_spec scores Hsne) as (idx & s & -> & -> & Hs & Hall).
    destruct (Hidx idx s Hs) as ([i j] & Hij & Hr & Hc).
    cbn [res_bind]. rewrite Hr, Hc. cbn [res_bind fst snd].
    exists idx, s, (i, j). split; [reflexivity|]. split; [exact Hij|].
    split; [exact Hs|exact Hall].
  - destruct (np_argmin_spec scores Hsne) as (idx & s & -> & -> & Hs & Hall).
    destruct (Hidx idx s Hs) as ([i j] & Hij & Hr & Hc).
    cbn [res_bind]. rewrite Hr, Hc. cbn [res_bind fst snd].
    exists idx, s, (i, j). split; [reflexivity|]. split; [exact Hij|].
    split; [exact Hs|exact Hall].
Qed.

(** The search on a board of a game in progress, given the scores of the
    positions one move away. *)
Lemma read_value_step (n : nat) (self : Agent.t) (a : ndarray) (p : Z) :
  is_board a ->
  Board.check_array a = Ok 0%Z ->
  (forall ij, In ij (empty_cells a) ->
     exists sc, child_score (Agent.read_value_fuel n self) a p ij sc) ->
  exists scores idx s ij,
    Agent.read_value_fuel (S n) self a p = Some (Ok (s, Some ij))
    /\ Forall2 (child_score (Agent.read_value_fuel n self) a p)
         (empty_cells a) scores
    /\ empty_cells a !! idx = Some ij
    /\ first_best self p scores idx s.
Proof.
  intros Hb Hcheck Hall.
  destruct (scores_value_ok _ a p (empty_cells a) [] Hall)
    as (scores & Hscores & HR).
  assert (Hne : empty_cells a <> []).
  { rewrite <- where_empty_cells by assumption. intros Hnil.
    apply where_from_nil in Hnil.
    rewrite (check_array_board a Hb), Hnil in Hcheck.
    destruct (three_in_a_row_b a 1), (three_in_a_row_b a 2); discriminate. }
  destruct (pick_first_best self p (empty_cells a) scores Hne)
    as (idx & s & ij & Hpick & Hij & Hbest).
  { symmetry. eapply Forall2_length; eassumption. }
  exists scores, idx, s, ij. split; [|auto].
  cbn [Agent.read_value_fuel Agent.value_bind]. rewrite Hcheck.
  cbn [Agent.value_bind Z.eqb negb].
  unfold np_where. rewrite zip_fst_snd, where_empty_cells by assumption.
  rewrite Hscores. cbn [Agent.value_bind app]. rewrite Hpick. reflexivity.
Qed.

Lemma read_value_terminal (n : nat) (self : Agent.t) (a : ndarray) (p v : Z) :
  Board.check_array a = Ok v -> v <> 0%Z ->
  Agent.read_value_fuel (S n) self a p
  = Some (Ok ((if (v =? -1)%Z then 0
               else if (v =? Agent.player self)%Z then 1 else -1)%Z, None)).
Proof.
  intros Hcheck Hv. cbn [Agent.read_value_fuel Agent.value_bind].
  rewrite Hcheck. cbn [Agent.value_bind].
  apply Z.eqb_neq in Hv. rewrite Hv. reflexivity.
Qed.

(** ** Fuel *)

Lemma read_value_fuel_eq (n : nat) (self : Agent.t) (a : ndarray) (p : Z) :
  Agent.read_value_fuel (S n) self a p
  = Agent.value_bind (Some (Board.check_array a)) (fun value =>
      if negb (value =? 0)%Z
      then Some (Ok ((if (value =? -1)%Z then 0
                      else if (value =? Agent.player self)%Z then 1
                      else -1)%Z, None))
      else
        let '(rows, cols) := np_where (np_eq a 0) in
        Agent.value_bind
          (Agent.scores_value (Agent.read_value_fuel n self) a p
             (zip rows cols) [])
          (fun scores => Some (Agent.pick self p rows cols scores))).
Proof. reflexivity. Qed.

Lemma scores_value_mono recv recv' (a : ndarray) (p : Z) :
  (forall a' p' r, recv a' p' = Some r -> recv' a' p' = Some r) ->
  forall (moves : list (nat * nat)) (scores : list Z) r,
    Agent.scores_value recv a p moves scores = Some r ->
    Agent.scores_value recv' a p moves scores = Some r.
Proof.
  intros Hmono. induction moves as [|[i j] moves IH]; intros scores r H;
    [exact H|].
  cbn [Agent.scores_value Agent.value_bind] in *.
  destruct (np_setitem a i j p) as [a'|e]; [|exact H].
  destruct (recv a' (if (p =? 2)%Z then 1 else 2)%Z) as [r'|] eqn:Hrec;
    [|discriminate H].
  rewrite (Hmono _ _ _ Hrec).
  destruct r' as [[sc m]|e]; cbn [Agent.value_bind] in *; [|exact H].
  apply IH, H.
Qed.

(** More fuel does not change a result. *)
Lemma read_value_fuel_S (n : nat) (self : Agent.t) :
  forall (a : ndarray) (p : Z) r,
    Agent.read_value_fuel n self a p = Some r ->
    Agent.read_value_fuel (S n) self a p = Some r.
Proof.
  induction n as [|n IH]; intros a p r H; [discriminate H|].
  rewrite read_value_fuel_eq in H. rewrite read_value_fuel_eq.
  destruct (Board.check_array a) as [v|e]; cbn [Agent.value_bind] in *;
    [|exact H].
  destruct (negb (v =? 0)%Z); [exact H|].
  destruct (np_where (np_eq a 0)) as [rows cols].
  destruct (Agent.scores_value (Agent.read_value_fuel n self) a p
              (zip rows cols) []) as [rs|] eqn:Hs; [|discriminate H].
  rewrite (scores_value_mono _ _ a p IH _ _ _ Hs). exact H.
Qed.

Lemma read_value_fuel_le (n n' : nat) (self : Agent.t) (a : ndarray)
    (p : Z) r :
  n <= n' ->
  Agent.read_value_fuel n self a p = Some r ->
  Agent.read_value_fuel n' self a p = Some r.
Proof.
  intros Hle H. induction Hle as [|n' _ IH]; [exact H|].
  apply read_value_fuel_S, IH.
Qed.

Lemma next_player_mark (p : Z) : to_uint8 (next_player p) <> 0%Z.
Proof. unfold next_player. destruct (p =? 2)%Z; discriminate. Qed.

(** With a mark to write, the search needs one level for each Empty
    cell and one for the position at the end. *)
Lemma read_value_total_mark (n : nat) (self : Agent.t) :
  forall (a : ndarray) (p : Z),
    is_board a -> to_uint8 p <> 0%Z -> Agent.count_empty a < n ->
    exists s m, Agent.read_value_fuel n self a p = Some (Ok (s, m)).
Proof.
  induction n as [|n IH]; intros a p Hb Hp Hn; [lia|].
  pose proof (check_array_board a Hb) as Hcheck.
  set (v := (if three_in_a_row_b a 1 then 1
             else if three_in_a_row_b a 2 then 2
             else if np_any (np_eq a 0) then 0 else -1)%Z) in Hcheck.
  destruct (Z.eq_dec v 0%Z) as [Hv|Hv].
  - rewrite Hv in Hcheck.
    destruct (read_value_step n self a p Hb Hcheck)
      as (scores & idx & s & ij & Hres & _); [|eauto].
    intros [i j] Hij.
    destruct (empty_cell_setitem a i j p Hij) as [a' Hset].
    destruct (IH a' (next_player p)) as (sc & m & Hrec).
    + eapply np_setitem_is_board; eassumption.
    + apply next_player_mark.
    + pose proof (child_count_lt a a' i j p Hb Hij Hset Hp). lia.
    + exists sc, a', m. split; assumption.
  - rewrite (read_value_terminal n self a p v Hcheck Hv). eauto.
Qed.

(** With any value to write, one level more is enough. *)
Lemma read_value_total (n : nat) (self : Agent.t) (a : ndarray) (p : Z) :
  is_board a -> 1 + Agent.count_empty a < n ->
  exists s m, Agent.read_value_fuel n self a p = Some (Ok (s, m)).
Proof.
  intros Hb Hn. destruct n as [|n]; [lia|].
  pose proof (check_array_board a Hb) as Hcheck.
  set (v := (if three_in_a_row_b a 1 then 1
             else if three_in_a_row_b a 2 then 2
             else if np_any (np_eq a 0) then 0 else -1)%Z) in Hcheck.
  destruct (Z.eq_dec v 0%Z) as [Hv|Hv].
  - rewrite Hv in Hcheck.
    destruct (read_value_step n self a p Hb Hcheck)
      as (scores & idx & s & ij & Hres & _); [|eauto].
    intros [i j] Hij.
    destruct (empty_cell_setitem a i j p Hij) as [a' Hset].
    destruct (read_value_total_mark n self a' (next_player p))
      as (sc & m & Hrec).
    + eapply np_setitem_is_board; eassumption.
    + apply next_player_mark.
    + pose proof (child_count_le a a' i j p Hb Hij Hset). lia.
    + exists sc, a', m. split; assumption.
  - rewrite (read_value_terminal n self a p v Hcheck Hv). eauto.
Qed.

(** The result of the search on a board, the same for all the fuel that
    [read_board] may start with and more. *)
Lemma read_value_result (self : Agent.t) (a : ndarray) (p : Z) :
  is_board a ->
  exists s m,
    forall n, 2 + Agent.count_empty a <= n ->
              Agent.read_value_fuel n self a p = Some (Ok (s, m)).
Proof.
  intros Hb.
  destruct (read_value_total (2 + Agent.count_empty a) self a p Hb)
    as (s & m & H); [lia|].
  exists s, m. intros n Hn. exact (read_value_fuel_le _ _ _ _ _ _ Hn H).
Qed.


(** [read_board] on a board in the store: it returns what the search on
    the value returns, and the store it leaves is the store it found with
    new arrays after it. *)
Lemma read_board_value (self : Agent.t) (board : loc) (p : Z) (h : heap)
    (a : ndarray) :
  h !! board = Some a ->
  exists ext,
    Agent.read_board self board p h
    = embed (Agent.read_value self a p) (h ++ ext).
Proof.
  intros Hl. unfold Agent.read_board, Agent.read_value. rewrite Hl.
  apply read_board_fuel_value, Hl.
Qed.

(** ** [read_board] *)

Lemma empty_cells_le_9 (a : ndarray) : length (empty_cells a) <= 9.
Proof. unfold empty_cells. apply (List.filter_length_le (cell_is a 0) scan_order). Qed.

Lemma read_board_Done (self : Agent.t) (board : loc) (p : Z) (h : heap)
    (a : ndarray) :
  h !! board = Some a -> is_board a ->
  exists s m,
    (forall n, 2 + Agent.count_empty a <= n ->
               Agent.read_value_fuel n self a p = Some (Ok (s, m)))
    /\ (forall n, 2 + Agent.count_empty a <= n ->
          exists ext, Agent.read_board_fuel n self board p h
                      = Done (s, m) (h ++ ext))
    /\ exists ext, Agent.read_board self board p h = Done (s, m) (h ++ ext).
Proof.
  intros Hl Hb. destruct (read_value_result self a p Hb) as (s & m & Hres).
  exists s, m. split; [exact Hres|]. split.
  - intros n Hn.
    destruct (read_board_fuel_value n self board p h a Hl) as [ext Hext].
    exists ext. rewrite Hext, (Hres n Hn). reflexivity.
  - destruct (read_board_value self board p h a Hl) as [ext Hext].
    exists ext. rewrite Hext. unfold Agent.read_value.
    rewrite (Hres _ (Nat.le_refl _)). reflexivity.
Qed.

(** C8. On every board and for every value of [player], [read_board]
    returns a score and a move: the search ends, with the same result for
    all the fuel from two more than the number of Empty cells, which is at
    most nine.  A position one move away has fewer Empty cells when the
    value written is not 0, and the calls inside the search pass the marks
    1 and 2 only. *)
Theorem read_board_total (self : Agent.t) (board : loc) (player : Z)
    (h : heap) (a : ndarray) :
  h !! board = Some a ->
  is_board a ->
  (exists s m,
     (exists h', Agent.read_board self board player h = Done (s, m) h')
     /\ forall fuel, 2 + Agent.count_empty a <= fuel ->
          exists h', Agent.read_board_fuel fuel self board player h
                     = Done (s, m) h')
  /\ Agent.count_empty a <= 9
  /\ (forall i j a',
        In (i, j) (empty_cells a) -> np_setitem a i j player = Ok a' ->
        to_uint8 player <> 0%Z ->
        Agent.count_empty a' < Agent.count_empty a)
  /\ (next_player player = 1%Z \/ next_player player = 2%Z).
Proof.
  intros Hl Hb. split; [|split; [|split]].
  - destruct (read_board_Done self board player h a Hl Hb)
      as (s & m & _ & Hfuel & ext & Hrun).
    exists s, m. split; [eauto|].
    intros fuel Hn. destruct (Hfuel fuel Hn) as [ext' H']. eauto.
  - rewrite count_empty_board by assumption. apply empty_cells_le_9.
  - intros i j a' Hij Hset Hp. exact (child_count_lt a a' i j player Hb Hij Hset Hp).
  - unfold next_player. destruct (player =? 2)%Z; auto.
Qed.

(** C7. [read_board] leaves the caller's array as it is: on every board
    and for every player it returns, and in the store it leaves the array
    at [board], and every array that was in the store, holds what it held
    before the call. *)
Theorem read_board_preserves (self : Agent.t) (board : loc) (player : Z)
    (h : heap) (a : ndarray) :
  h !! board = Some a ->
  is_board a ->
  exists r h',
    Agent.read_board self board player h = Done r h'
    /\ h' !! board = Some a
    /\ forall l x, h !! l = Some x -> h' !! l = Some x.
Proof.
  intros Hl Hb.
  destruct (read_board_Done self board player h a Hl Hb)
    as (s & m & _ & _ & ext & Hrun).
  exists (s, m), (h ++ ext). split; [exact Hrun|].
  assert (Hkeep : forall l x, h !! l = Some x -> (h ++ ext) !! l = Some x).
  { intros l x Hx. rewrite lookup_app_l; [exact Hx|].
    eapply lookup_lt_Some; eassumption. }
  split; [apply Hkeep, Hl|exact Hkeep].
Qed.

(** C3. On a board where the game is over, [read_board] returns a score
    and no move: 0 when no player wins, 1 when the winner is the agent's
    own mark, -1 when the winner is another mark. *)
Theorem read_board_terminal (self : Agent.t) (board : loc) (player : Z)
    (h : heap) (a : ndarray) (v : Z) :
  h !! board = Some a ->
  is_board a ->
  Board.check_board (Board.mk board) h = Done v h ->
  v <> 0%Z ->
  exists score h',
    Agent.read_board self board player h = Done (score, None) h'
    /\ (v = (-1)%Z -> score = 0%Z)
    /\ (v = 1%Z \/ v = 2%Z -> v = Agent.player self -> score = 1%Z)
    /\ (v = 1%Z \/ v = 2%Z -> v <> Agent.player self -> score = (-1)%Z).
Proof.
  intros Hl Hb Hcheck Hv.
  rewrite (check_board_array (Board.mk board) h a Hl) in Hcheck.
  destruct (Board.check_array a) as [v'|e] eqn:Harr; [|discriminate Hcheck].
  inversion Hcheck; subst v'.
  destruct (read_board_value self board player h a Hl) as [ext Hrun].
  unfold Agent.read_value in Hrun. cbn [Nat.add] in Hrun.
  rewrite (read_value_terminal _ self a player v Harr Hv) in Hrun.
  eexists _, (h ++ ext). split; [exact Hrun|].
  split; [|split].
  - intros ->. reflexivity.
  - intros Hw Heq. destruct (v =? -1)%Z eqn:Hd;
      [apply Z.eqb_eq in Hd; lia|].
    apply Z.eqb_eq in Heq. rewrite Heq. reflexivity.
  - intros Hw Hne. destruct (v =? -1)%Z eqn:Hd;
      [apply Z.eqb_eq in Hd; lia|].
    apply Z.eqb_neq in Hne. rewrite Hne. reflexivity.
Qed.


Lemma read_board_total_witness :
  (exists s m,
     (exists h', Agent.read_board (Agent.mk 2) 0 1 [sample_board]
                 = Done (s, m) h')
     /\ forall fuel, 2 + Agent.count_empty sample_board <= fuel ->
          exists h', Agent.read_board_fuel fuel (Agent.mk 2) 0 1 [sample_board]
                     = Done (s, m) h')
  /\ Agent.count_empty [[1; 2; 1]; [1; 2; 0]; [0; 0; 0]]%Z
     < Agent.count_empty sample_board.
Proof.
  destruct (read_board_total (Agent.mk 2) 0 1 [sample_board] sample_board
              eq_refl sample_board_is_board) as (Hrun & _ & Hless & _).
  split; [exact Hrun|].
  apply (Hless 1 0); [simpl; tauto|reflexivity|discriminate].
Defined.

Lemma read_board_preserves_witness :
  exists r h',
    Agent.read_board (Agent.mk 2) 0 2 [sample_board] = Done r h'
    /\ h' !! 0 = Some sample_board
    /\ forall l x, [sample_board] !! l = Some x -> h' !! l = Some x.
Proof.
  exact (read_board_preserves (Agent.mk 2) 0 2 [sample_board] sample_board
           eq_refl sample_board_is_board).
Defined.

Lemma read_board_terminal_witness :
  exists h',
    Agent.read_board (Agent.mk 2) 0 2 [won_board] = Done ((-1)%Z, None) h'.
Proof.
  destruct (read_board_terminal (Agent.mk 2) 0 2 [won_board] won_board 1
              eq_refl won_board_is_board eq_refl ltac:(discriminate))
    as (score & h' & Hrun & _ & _ & Hlose).
  exists h'. rewrite <- (Hlose (or_introl eq_refl) ltac:(discriminate)).
  exact Hrun.
Defined.


(** The search on the empty grid. *)
Lemma read_value_empty_1 :
  Agent.read_value (Agent.mk 1) (np_zeros 3 3) 1
  = Some (Ok (0%Z, Some (0, 0))).
Proof. vm_compute. reflexivity. Qed.

Lemma read_value_empty_2 :
  Agent.read_value (Agent.mk 2) (np_zeros 3 3) 2
  = Some (Ok (0%Z, Some (0, 0))).
Proof. vm_compute. reflexivity. Qed.

(** C1. On the empty grid, with the agent's own mark to move,
    [read_board] returns the score 0, and the move (0,0): neither side can
    force a win from the empty grid.  This holds for the agent that plays
    1 and for the agent that plays 2. *)
Theorem read_board_empty (h : heap) (board : loc) :
  h !! board = Some (np_zeros 3 3) ->
  (exists h', Agent.read_board (Agent.mk 1) board 1 h
              = Done (0%Z, Some (0, 0)) h')
  /\ (exists h', Agent.read_board (Agent.mk 2) board 2 h
                 = Done (0%Z, Some (0, 0)) h').
Proof.
  intros Hl. split.
  - destruct (read_board_value (Agent.mk 1) board 1 h _ Hl) as [ext Hrun].
    rewrite read_value_empty_1 in Hrun. eauto.
  - destruct (read_board_value (Agent.mk 2) board 2 h _ Hl) as [ext Hrun].
    rewrite read_value_empty_2 in Hrun. eauto.
Qed.

Lemma read_board_empty_witness :
  (exists h', Agent.read_board (Agent.mk 1) 0 1 [np_zeros 3 3]
              = Done (0%Z, Some (0, 0)) h')
  /\ (exists h', Agent.read_board (Agent.mk 2) 0 2 [np_zeros 3 3]
                 = Done (0%Z, Some (0, 0)) h').
Proof.
  exact (read_board_empty [np_zeros 3 3] 0 eq_refl).
Defined.

(** Player 1 holds (0,0) and (0,1) and is to move: the agent that plays 1
    completes the row at (0,2), with score 1. *)
Example read_board_completes_row :
  exists h',
    Agent.read_board (Agent.mk 1) 0 1 [[[1; 1; 0]; [0; 0; 0]; [0; 0; 0]]%Z]
    = Done (1%Z, Some (0, 2)) h'.
Proof.
  destruct (read_board_value (Agent.mk 1) 0 1
              [[[1; 1; 0]; [0; 0; 0]; [0; 0; 0]]%Z] _ eq_refl) as [ext Hrun].
  exists ([[[1; 1; 0]; [0; 0; 0]; [0; 0; 0]]%Z] ++ ext). rewrite Hrun.
  vm_compute Agent.read_value. reflexivity.
Qed.

(** * Further properties of the board *)

(** ** [check_board]: winners and arrays of other shapes *)

(** X1. [check_board] returns 1 exactly when player 1 has three in a row, and
    2 exactly when player 2 has three in a row and player 1 has not. *)
Theorem check_board_winner (self : Board.t) (h : heap) (a : ndarray) :
  h !! Board.__board self = Some a ->
  is_board a ->
  exists v : Z,
    Board.check_board self h = Done v h
    /\ (v = 1%Z <-> three_in_a_row a 1)
    /\ (v = 2%Z <-> ~ three_in_a_row a 1 /\ three_in_a_row a 2).
Proof.
  intros Hl Hb.
  rewrite (check_board_array self h a Hl), (check_array_board a Hb).
  pose proof (three_in_a_row_b_spec a 1) as L1.
  pose proof (three_in_a_row_b_spec a 2) as L2.
  eexists; split; [reflexivity|].
  destruct (three_in_a_row_b a 1), (three_in_a_row_b a 2),
    (np_any (np_eq a 0)); intuition (try discriminate; try lia).
Qed.

Lemma check_board_winner_witness :
  exists v : Z,
    Board.check_board (Board.mk 0) [won_board] = Done v [won_board]
    /\ (v = 1%Z <-> three_in_a_row won_board 1)
    /\ (v = 2%Z <-> ~ three_in_a_row won_board 1 /\ three_in_a_row won_board 2).
Proof.
  exact (check_board_winner (Board.mk 0) [won_board] won_board eq_refl
           won_board_is_board).
Defined.

Lemma np_row_Ok (m : mask) (i : nat) :
  (exists r, np_row m i = Ok r) <-> i < length m.
Proof.
  unfold np_row. split.
  - intros [r H]. destruct (m !! i) eqn:Hi; [|discriminate].
    eapply lookup_lt_Some; eassumption.
  - intros H. destruct (lookup_lt_is_Some_2 m i H) as [r ->]. eauto.
Qed.

Lemma np_col_Ok (m : mask) (i : nat) :
  (exists c, np_col m i = Ok c) <-> Forall (fun r : list bool => i < length r) m.
Proof.
  induction m as [|r m IH]; simpl.
  - split; [constructor|eauto].
  - split.
    + intros [c H]. destruct (r !! i) eqn:Hi; [|discriminate].
      destruct (np_col m i) as [c'|e] eqn:Hc; [|discriminate].
      constructor; [eapply lookup_lt_Some; eassumption|].
      apply IH. eauto.
    + intros H. inversion H as [|? ? Hr Hm]; subst.
      destruct (lookup_lt_is_Some_2 r i Hr) as [b ->].
      apply IH in Hm as [c ->]. simpl. eauto.
Qed.

Lemma np_row_Err (m : mask) (i : nat) e : np_row m i = Err e -> e = IndexError.
Proof. unfold np_row. destruct (m !! i); congruence. Qed.

Lemma np_col_Err (m : mask) (i : nat) e : np_col m i = Err e -> e = IndexError.
Proof.
  induction m as [|r m IH]; simpl; [discriminate|].
  destruct (r !! i); [|congruence].
  destruct (np_col m i); simpl; [discriminate|]. intros H. apply IH. congruence.
Qed.

Lemma check_loop_Ok (m : mask) (range : list nat) (win : bool) :
  (exists w, Board.check_loop m range win = Ok w) <->
  Forall (fun i => i < length m
                   /\ Forall (fun r : list bool => i < length r) m) range.
Proof.
  revert win. induction range as [|i range IH]; intros win; simpl.
  - split; [constructor|eauto].
  - split.
    + intros [w H].
      destruct (np_row m i) as [r|e] eqn:Hr; [|discriminate].
      destruct (np_col m i) as [c|e] eqn:Hc; [|discriminate].
      simpl in H. constructor.
      * split; [apply np_row_Ok; eauto|apply np_col_Ok; eauto].
      * apply (IH (win || np_all r || np_all c)). eauto.
    + intros H. inversion H as [|? ? [Hr Hc] Hrest]; subst.
      apply np_row_Ok in Hr as [r ->]. apply np_col_Ok in Hc as [c ->].
      simpl. apply IH, Hrest.
Qed.

Lemma check_loop_Err (m : mask) (range : list nat) (win : bool) e :
  Board.check_loop m range win = Err e -> e = IndexError.
Proof.
  revert win. induction range as [|i range IH]; intros win; simpl;
    [discriminate|].
  destruct (np_row m i) as [r|e'] eqn:Hr;
    [|intros H; inversion H; subst; eapply np_row_Err; eassumption].
  destruct (np_col m i) as [c|e'] eqn:Hc;
    [|intros H; inversion H; subst; eapply np_col_Err; eassumption].
  simpl. apply IH.
Qed.

Lemma indexable_mask (a : ndarray) (v : Z) :
  indexable a <->
  Forall (fun i => i < length (np_eq a v)
                   /\ Forall (fun r : list bool => i < length r) (np_eq a v))
    [0; 1; 2].
Proof.
  unfold indexable, np_eq.
  assert (Hrows : forall i,
             Forall (fun r : list bool => i < length r)
               ((fun r : list Z => (fun c => (c =? v)%Z) <$> r) <$> a)
             <-> Forall (fun r : list Z => i < length r) a).
  { intros i. rewrite Forall_fmap. apply Forall_iff. intros r. simpl.
    rewrite length_fmap. reflexivity. }
  rewrite !Forall_cons, Forall_nil, !Hrows, !length_fmap.
  rewrite !Forall_forall. split.
  - intros [Hlen Hall]. repeat split; try lia;
      intros r Hr; specialize (Hall r Hr); lia.
  - intros ((_ & _) & (_ & _) & (Hlen & Hall) & _). split; [lia|].
    intros r Hr. specialize (Hall r Hr). lia.
Qed.

Lemma check_Ok (a : ndarray) (v : Z) :
  (exists w, Board.__check (np_eq a v) = Ok w) <-> indexable a.
Proof.
  rewrite (indexable_mask a v), <- (check_loop_Ok _ _ false).
  unfold Board.__check. split.
  - intros [w H].
    destruct (Board.check_loop (np_eq a v) [0; 1; 2] false) as [w'|e];
      [eauto|discriminate].
  - intros [w ->]. simpl. eauto.
Qed.

Lemma check_Err (m : mask) e : Board.__check m = Err e -> e = IndexError.
Proof.
  unfold Board.__check.
  destruct (Board.check_loop m [0; 1; 2] false) as [w|e'] eqn:H;
    [discriminate|].
  intros H'. inversion H'; subst. eapply check_loop_Err; eassumption.
Qed.

(** X2. On any array, whatever [set_board] installed: [check_board] returns
    one of its four values when the array has three rows or more of three
    cells or more, and raises IndexError, leaving the store as it is,
    otherwise. *)
Theorem check_board_indexable (self : Board.t) (h : heap) (a : ndarray) :
  h !! Board.__board self = Some a ->
  (indexable a ->
   exists v : Z, Board.check_board self h = Done v h
                 /\ (v = 0 \/ v = 1 \/ v = 2 \/ v = -1)%Z)
  /\ (~ indexable a -> Board.check_board self h = Raise IndexError h).
Proof.
  intros Hl. rewrite (check_board_array self h a Hl).
  unfold Board.check_array. split.
  - intros Hfit.
    destruct (proj2 (check_Ok a 1) Hfit) as [w1 ->].
    destruct (proj2 (check_Ok a 2) Hfit) as [w2 ->].
    simpl. destruct w1; [eauto 6|]. destruct w2; [eauto 6|].
    destruct (np_any (np_eq a 0)); eauto 6.
  - intros Hno.
    destruct (Board.__check (np_eq a 1)) as [w1|e] eqn:H1.
    + exfalso. apply Hno. apply (check_Ok a 1). eauto.
    + apply check_Err in H1 as ->. reflexivity.
Qed.

Lemma check_board_indexable_witness :
  (exists v : Z,
     Board.check_board (Board.mk 0) [wide_board] = Done v [wide_board]
     /\ (v = 0 \/ v = 1 \/ v = 2 \/ v = -1)%Z)
  /\ Board.check_board (Board.mk 0) [[[1; 1]; [1; 1]]%Z]
     = Raise IndexError [[[1; 1]; [1; 1]]%Z].
Proof.
  split.
  - apply (proj1 (check_board_indexable (Board.mk 0) [wide_board] wide_board
                    eq_refl)).
    split; [simpl; lia|].
    repeat (apply List.Forall_cons; [simpl; lia|]). apply List.Forall_nil.
  - apply (proj2 (check_board_indexable (Board.mk 0) [[[1; 1]; [1; 1]]%Z]
                    [[1; 1]; [1; 1]]%Z eq_refl)).
    intros [Hlen _]. simpl in Hlen. lia.
Defined.

(** ** [play]: what it keeps, and arrays of other shapes *)

Lemma is_board_rectangular (a : ndarray) : is_board a -> rectangular a.
Proof.
  intros Hb. unfold rectangular. rewrite (is_board_shape a Hb).
  destruct Hb as [_ Hrows]. eapply Forall_impl; [exact Hrows|].
  intros r [Hr _]. exact Hr.
Qed.

Lemma rectangular_getitem (a : ndarray) (i j : nat) :
  rectangular a -> i < fst (np_shape a) -> j < snd (np_shape a) ->
  exists c, np_getitem a i j = Ok c.
Proof.
  intros Hrect Hi Hj. simpl in Hi.
  destruct (lookup_lt_is_Some_2 a i Hi) as [r Hr].
  unfold rectangular in Hrect. rewrite Forall_forall in Hrect.
  pose proof (Hrect r (list_elem_of_lookup_2 _ _ _ Hr)) as Hlen.
  destruct (lookup_lt_is_Some_2 r j ltac:(lia)) as [c Hc].
  exists c. apply np_getitem_Ok. eauto.
Qed.

Lemma play_any_shape_cases (self : Board.t) (h : heap) (a : ndarray)
    (player row_i col_j : Z) :
  h !! Board.__board self = Some a ->
  rectangular a ->
  (exists a',
     Board.play self player row_i col_j h
       = Done true (<[Board.__board self := a']> h)
     /\ np_setitem a (Z.to_nat row_i) (Z.to_nat col_j) player = Ok a'
     /\ (0 <= row_i < Z.of_nat (fst (np_shape a)))%Z
     /\ (0 <= col_j < Z.of_nat (snd (np_shape a)))%Z
     /\ np_getitem a (Z.to_nat row_i) (Z.to_nat col_j) = Ok 0%Z)
  \/ (Board.play self player row_i col_j h = Done false h
      /\ ~ ((0 <= row_i < Z.of_nat (fst (np_shape a)))%Z
            /\ (0 <= col_j < Z.of_nat (snd (np_shape a)))%Z
            /\ np_getitem a (Z.to_nat row_i) (Z.to_nat col_j) = Ok 0%Z)).
Proof.
  intros Hself Hrect.
  destruct (Z_lt_dec row_i 0) as [?|?];
    [right; split; [apply (play_out_of_range self h a Hself); lia|lia]|].
  destruct (Z_le_dec (Z.of_nat (fst (np_shape a))) row_i) as [?|?];
    [right; split; [apply (play_out_of_range self h a Hself); lia|lia]|].
  destruct (Z_lt_dec col_j 0) as [?|?];
    [right; split; [apply (play_out_of_range self h a Hself); lia|lia]|].
  destruct (Z_le_dec (Z.of_nat (snd (np_shape a))) col_j) as [?|?];
    [right; split; [apply (play_out_of_range self h a Hself); lia|lia]|].
  destruct (rectangular_getitem a (Z.to_nat row_i) (Z.to_nat col_j) Hrect)
    as [c Hget]; [lia|lia|].
  destruct (Z.eq_dec c 0%Z) as [->|Hc].
  - left.
    destruct (play_empty self h a Hself player row_i col_j) as (a' & Hset & Hp);
      [lia|lia|exact Hget|].
    exists a'. repeat split; try assumption; lia.
  - right. split.
    + apply (play_occupied self h a Hself player row_i col_j c);
        [lia|lia|exact Hget|exact Hc].
    + intros (_ & _ & Hget'). congruence.
Qed.


(** X3. On a rectangular array of any shape, [play] raises nothing, and its
    bounds are those of the array: it returns True, and writes the cell,
    exactly for coordinates inside the shape whose cell holds 0. *)
Theorem play_any_shape (self : Board.t) (h : heap) (a : ndarray)
    (player row_i col_j : Z) :
  h !! Board.__board self = Some a ->
  rectangular a ->
  (exists a',
     Board.play self player row_i col_j h
       = Done true (<[Board.__board self := a']> h)
     /\ np_setitem a (Z.to_nat row_i) (Z.to_nat col_j) player = Ok a'
     /\ (0 <= row_i < Z.of_nat (fst (np_shape a)))%Z
     /\ (0 <= col_j < Z.of_nat (snd (np_shape a)))%Z
     /\ np_getitem a (Z.to_nat row_i) (Z.to_nat col_j) = Ok 0%Z)
  \/ (Board.play self player row_i col_j h = Done false h
      /\ ~ ((0 <= row_i < Z.of_nat (fst (np_shape a)))%Z
            /\ (0 <= col_j < Z.of_nat (snd (np_shape a)))%Z
            /\ np_getitem a (Z.to_nat row_i) (Z.to_nat col_j) = Ok 0%Z)).
Proof. apply play_any_shape_cases. Qed.

Lemma wide_board_rectangular : rectangular wide_board.
Proof.
  unfold rectangular.
  repeat (apply List.Forall_cons; [reflexivity|]). apply List.Forall_nil.
Qed.

Lemma play_any_shape_witness :
  exists a',
    Board.play (Board.mk 0) 1 3 3 [wide_board]
      = Done true (<[0 := a']> [wide_board])
    /\ np_getitem a' 3 3 = Ok 1%Z.
Proof.
  destruct (play_any_shape (Board.mk 0) [wide_board] wide_board 1 3 3 eq_refl
              wide_board_rectangular)
    as [(a' & Hplay & Hset & _)|[_ Hno]].
  - exists a'. split; [exact Hplay|].
    exact (np_getitem_setitem_eq _ _ _ _ _ Hset).
  - exfalso. apply Hno. repeat split; simpl; lia.
Defined.

(** X4. Whatever the coordinates, and for every player value that fits
    the uint8 cell, [play] on a board raises nothing and leaves a board:
    the shape and the range of the cells are kept, every cell that was
    not Empty holds what it held, no cell becomes Empty, and when False
    is returned nothing has changed at all. *)
Theorem play_keeps (self : Board.t) (h : heap) (a : ndarray)
    (player row_i col_j : Z) :
  h !! Board.__board self = Some a ->
  is_board a ->
  is_cell player ->
  exists (valid : bool) (a' : ndarray),
    Board.play self player row_i col_j h
      = Done valid (<[Board.__board self := a']> h)
    /\ is_board a'
    /\ (forall i j c, np_getitem a i j = Ok c -> c <> 0%Z ->
                      np_getitem a' i j = Ok c)
    /\ Agent.count_empty a' <= Agent.count_empty a
    /\ (valid = false -> a' = a).
Proof.
  intros Hself Hb _.
  assert (Hid : <[Board.__board self := a]> h = h)
    by (apply list_insert_id, Hself).
  destruct (play_any_shape_cases self h a player row_i col_j Hself
              (is_board_rectangular a Hb))
    as [(a' & Hplay & Hset & Hr & Hc & Hget)|[Hplay _]].
  - exists true, a'. split; [exact Hplay|].
    split; [eapply np_setitem_is_board; eassumption|]. split; [|split].
    + intros i j c Hij Hne.
      rewrite (np_getitem_setitem_ne _ _ _ _ _ _ _ Hset); [exact Hij|].
      intros Heq. inversion Heq; subst. congruence.
    + apply (child_count_le a a' (Z.to_nat row_i) (Z.to_nat col_j) player);
        [exact Hb| |exact Hset].
      apply empty_cells_spec. split; [|exact Hget].
      rewrite (is_board_shape a Hb) in Hr, Hc. simpl in Hr, Hc.
      assert (Hi : Z.to_nat row_i = 0 \/ Z.to_nat row_i = 1
                   \/ Z.to_nat row_i = 2) by lia.
      assert (Hj : Z.to_nat col_j = 0 \/ Z.to_nat col_j = 1
                   \/ Z.to_nat col_j = 2) by lia.
      destruct Hi as [ -> | [ -> | -> ] ]; destruct Hj as [ -> | [ -> | -> ] ];
        simpl; tauto.
    + discriminate.
  - exists false, a. rewrite Hid. split; [exact Hplay|].
    split; [exact Hb|]. split; [auto|]. split; [lia|reflexivity].
Qed.

Lemma play_keeps_witness :
  exists (valid : bool) (a' : ndarray),
    Board.play (Board.mk 0) 2 1 0 [sample_board]
      = Done valid (<[0 := a']> [sample_board])
    /\ is_board a'
    /\ (forall i j c, np_getitem sample_board i j = Ok c -> c <> 0%Z ->
                      np_getitem a' i j = Ok c)
    /\ Agent.count_empty a' <= Agent.count_empty sample_board
    /\ (valid = false -> a' = sample_board).
Proof.
  apply (play_keeps (Board.mk 0) [sample_board] sample_board 2 1 0 eq_refl
           sample_board_is_board).
  unfold is_cell. lia.
Defined.

(** ** [erase_board], [get_board] and [set_board] together *)

(** X5. [erase_board] does not clear the array in place: it gives the board a
    new array of zeros.  The array the board had, and every other array,
    holds what it held, so a caller that still has the old array (it gave
    it to [set_board]) does not see the reset; the board itself reads an
    empty grid with the game not over. *)
Theorem erase_board_rebinds (self : Board.t) (h : heap) (a : ndarray) :
  h !! Board.__board self = Some a ->
  exists self' h',
    Board.erase_board self h = Done self' h'
    /\ Board.__board self' <> Board.__board self
    /\ h' !! Board.__board self' = Some (np_zeros 3 3)
    /\ Board.check_board self' h' = Done 0%Z h'
    /\ (forall l x, h !! l = Some x -> h' !! l = Some x).
Proof.
  intros Hl. pose proof (lookup_lt_Some _ _ _ Hl) as Hlt.
  exists (Board.mk (length h)), (h ++ [np_zeros 3 3]).
  assert (Hnew : (h ++ [np_zeros 3 3]) !! length h = Some (np_zeros 3 3))
    by (apply list_lookup_middle; reflexivity).
  split; [reflexivity|]. split; [simpl; lia|]. split; [exact Hnew|]. split.
  - rewrite (check_board_array (Board.mk (length h)) _ _ Hnew). reflexivity.
  - intros l x Hx. rewrite lookup_app_l; [exact Hx|].
    eapply lookup_lt_Some; eassumption.
Qed.

Lemma erase_board_rebinds_witness :
  exists self' h',
    Board.erase_board (Board.mk 0) [won_board] = Done self' h'
    /\ h' !! 0 = Some won_board
    /\ Board.check_board self' h' = Done 0%Z h'
    /\ Board.check_board (Board.mk 0) h' = Done 1%Z h'.
Proof.
  destruct (erase_board_rebinds (Board.mk 0) [won_board] won_board eq_refl)
    as (self' & h' & Herase & _ & _ & Hcheck & Hkeep).
  exists self', h'. split; [exact Herase|].
  pose proof (Hkeep 0 won_board eq_refl) as Hold.
  split; [exact Hold|]. split; [exact Hcheck|].
  rewrite (check_board_array (Board.mk 0) h' won_board Hold). reflexivity.
Defined.

(** X6. A snapshot restores the board: after [get_board], whatever [play] then
    does to the board, the copy holds the grid of the time of the
    snapshot, and a board given the copy by [set_board] reads that
    grid. *)
Theorem get_board_restores (self : Board.t) (h : heap) (a : ndarray)
    (player row_i col_j : Z) :
  h !! Board.__board self = Some a ->
  is_board a ->
  exists (c : loc) (h1 : heap) (valid : bool) (h2 : heap),
    Board.get_board self h = Done c h1
    /\ Board.play self player row_i col_j h1 = Done valid h2
    /\ h2 !! c = Some a
    /\ Board.check_board (Board.set_board self c) h2
       = lift (Board.check_array a) h2
    /\ Board.get_board (Board.set_board self c) h2
       = Done (length h2) (h2 ++ [a]).
Proof.
  intros Hl Hb. pose proof (lookup_lt_Some _ _ _ Hl) as Hlt.
  set (h1 := h ++ [a]).
  assert (Hl1 : h1 !! Board.__board self = Some a)
    by (unfold h1; rewrite lookup_app_l by assumption; exact Hl).
  destruct (play_any_shape_cases self h1 a player row_i col_j Hl1
              (is_board_rectangular a Hb))
    as [(a' & Hplay & _)|[Hplay _]].
  - exists (length h), h1, true, (<[Board.__board self := a']> h1).
    assert (Hc : <[Board.__board self := a']> h1 !! length h = Some a).
    { rewrite list_lookup_insert_ne by lia.
      apply list_lookup_middle. reflexivity. }
    split; [apply get_board_copy, Hl|]. split; [exact Hplay|].
    split; [exact Hc|]. split.
    + rewrite (check_board_array (Board.set_board self (length h)) _ a Hc).
      destruct (Board.check_array a); reflexivity.
    + apply get_board_copy. exact Hc.
  - exists (length h), h1, false, h1.
    assert (Hc : h1 !! length h = Some a)
      by (apply list_lookup_middle; reflexivity).
    split; [apply get_board_copy, Hl|]. split; [exact Hplay|].
    split; [exact Hc|]. split.
    + rewrite (check_board_array (Board.set_board self (length h)) _ a Hc).
      destruct (Board.check_array a); reflexivity.
    + apply get_board_copy. exact Hc.
Qed.

Lemma get_board_restores_witness :
  exists (c : loc) (h1 : heap) (valid : bool) (h2 : heap),
    Board.get_board (Board.mk 0) [sample_board] = Done c h1
    /\ Board.play (Board.mk 0) 1 2 1 h1 = Done valid h2
    /\ h2 !! c = Some sample_board
    /\ Board.check_board (Board.set_board (Board.mk 0) c) h2
       = lift (Board.check_array sample_board) h2
    /\ Board.get_board (Board.set_board (Board.mk 0) c) h2
       = Done (length h2) (h2 ++ [sample_board]).
Proof.
  exact (get_board_restores (Board.mk 0) [sample_board] sample_board 1 2 1
           eq_refl sample_board_is_board).
Defined.

(** * Further properties of the search *)

(** ** The range of the scores *)

Lemma scores_value_Forall (P : Z -> Prop) recv (a : ndarray) (p : Z) :
  (forall a' p' s m, recv a' p' = Some (Ok (s, m)) -> P s) ->
  forall (moves : list (nat * nat)) (scores out : list Z),
    Forall P scores ->
    Agent.scores_value recv a p moves scores = Some (Ok out) ->
    Forall P out.
Proof.
  intros Hrec. induction moves as [|[i j] moves IH]; intros scores out HP H.
  - inversion H; subst. exact HP.
  - cbn [Agent.scores_value Agent.value_bind] in H.
    destruct (np_setitem a i j p) as [a'|e]; [|discriminate H].
    destruct (recv a' (if (p =? 2)%Z then 1 else 2)%Z)
      as [[[s m]|e]|] eqn:Hr; cbn [Agent.value_bind fst] in H;
      try discriminate H.
    apply (IH (scores ++ [s]) out); [|exact H].
    apply Forall_app. split; [exact HP|].
    apply List.Forall_cons; [eapply Hrec; eassumption|apply List.Forall_nil].
Qed.

(** The score that [pick] returns is one of the scores. *)
Lemma pick_elem (self : Agent.t) (p : Z) (rows cols : list nat)
    (scores : list Z) (s : Z) m :
  Agent.pick self p rows cols scores = Ok (s, m) ->
  exists idx, scores !! idx = Some s.
Proof.
  unfold Agent.pick. intros H.
  assert (Hne : scores <> []).
  { intros ->. destruct (Agent.player self =? p)%Z; discriminate H. }
  destruct (Agent.player self =? p)%Z.
  - destruct (np_argmax_spec scores Hne) as (idx & best & HI & HM & Hk & _).
    rewrite HI, HM in H. cbn [res_bind] in H.
    destruct (index rows idx); [|discriminate H].
    destruct (index cols idx); [|discriminate H].
    cbn [res_bind] in H. inversion H; subst. eauto.
  - destruct (np_argmin_spec scores Hne) as (idx & best & HI & HM & Hk & _).
    rewrite HI, HM in H. cbn [res_bind] in H.
    destruct (index rows idx); [|discriminate H].
    destruct (index cols idx); [|discriminate H].
    cbn [res_bind] in H. inversion H; subst. eauto.
Qed.

Lemma read_value_fuel_score (n : nat) (self : Agent.t) :
  forall (a : ndarray) (p s : Z) m,
    Agent.read_value_fuel n self a p = Some (Ok (s, m)) -> is_score s.
Proof.
  induction n as [|n IH]; intros a p s m H; [discriminate H|].
  rewrite read_value_fuel_eq in H.
  destruct (Board.check_array a) as [v|e]; cbn [Agent.value_bind] in H;
    [|discriminate H].
  destruct (negb (v =? 0)%Z).
  - inversion H; subst. unfold is_score.
    destruct (v =? -1)%Z; [auto|].
    destruct (v =? Agent.player self)%Z; auto.
  - destruct (np_where (np_eq a 0)) as [rows cols].
    destruct (Agent.scores_value (Agent.read_value_fuel n self) a p
                (zip rows cols) []) as [[scores|e]|] eqn:Hs;
      cbn [Agent.value_bind] in H; try discriminate H.
    inversion H as [Hpick]. apply pick_elem in Hpick as [idx Hidx].
    pose proof (scores_value_Forall is_score _ a p IH _ _ _
                  (List.Forall_nil _) Hs) as Hall.
    rewrite Forall_forall in Hall. apply Hall.
    eapply list_elem_of_lookup_2; eassumption.
Qed.

(** X7. On every board and for every player, the score that [read_board]
    returns is -1, 0 or 1. *)
Theorem read_board_score_range (self : Agent.t) (board : loc) (player : Z)
    (h : heap) (a : ndarray) :
  h !! board = Some a ->
  is_board a ->
  exists s m h',
    Agent.read_board self board player h = Done (s, m) h'
    /\ (s = (-1)%Z \/ s = 0%Z \/ s = 1%Z).
Proof.
  intros Hl Hb.
  destruct (read_board_Done self board player h a Hl Hb)
    as (s & m & Hval & _ & ext & Hrun).
  exists s, m, (h ++ ext). split; [exact Hrun|].
  exact (read_value_fuel_score _ self a player s m (Hval _ (Nat.le_refl _))).
Qed.

Lemma read_board_score_range_witness :
  exists s m h',
    Agent.read_board (Agent.mk 2) 0 1 [sample_board] = Done (s, m) h'
    /\ (s = (-1)%Z \/ s = 0%Z \/ s = 1%Z).
Proof.
  exact (read_board_score_range (Agent.mk 2) 0 1 [sample_board] sample_board
           eq_refl sample_board_is_board).
Defined.

(** ** The move *)

Lemma check_array_values (a : ndarray) (v : Z) :
  Board.check_array a = Ok v -> (v = 0 \/ v = 1 \/ v = 2 \/ v = -1)%Z.
Proof.
  unfold Board.check_array.
  destruct (Board.__check (np_eq a 1)) as [[|]|]; simpl;
    [intros H; inversion H; auto| |discriminate].
  destruct (Board.__check (np_eq a 2)) as [[|]|]; simpl;
    [intros H; inversion H; auto| |discriminate].
  destruct (np_any (np_eq a 0)); intros H; inversion H; auto.
Qed.

Lemma is_board_check_array (a : ndarray) :
  is_board a -> exists v, Board.check_array a = Ok v.
Proof. intros Hb. rewrite (check_array_board a Hb). eauto. Qed.

Lemma empty_cells_in_grid (a : ndarray) (i j : nat) :
  In (i, j) (empty_cells a) -> i < 3 /\ j < 3.
Proof.
  intros H. apply empty_cells_spec in H as [H _]. simpl in H.
  repeat (destruct H as [H|H]; [inversion H; subst; lia|]). destruct H.
Qed.

(** The search on a board, one level unfolded: a position where the game
    is over has no move; otherwise the move is an Empty cell, with the
    first best of the scores of the candidates. *)
Lemma read_value_cases (self : Agent.t) (a : ndarray) (p : Z) :
  is_board a ->
  (exists v s,
     Board.check_array a = Ok v /\ v <> 0%Z
     /\ Agent.read_value self a p = Some (Ok (s, None)))
  \/ (Board.check_array a = Ok 0%Z
      /\ exists scores idx s ij,
           Agent.read_value self a p = Some (Ok (s, Some ij))
           /\ Forall2
                (child_score
                   (Agent.read_value_fuel (1 + Agent.count_empty a) self) a p)
                (empty_cells a) scores
           /\ empty_cells a !! idx = Some ij
           /\ first_best self p scores idx s).
Proof.
  intros Hb. destruct (is_board_check_array a Hb) as [v Hcheck].
  destruct (Z.eq_dec v 0%Z) as [->|Hv].
  - right. split; [exact Hcheck|].
    apply (read_value_step (1 + Agent.count_empty a) self a p Hb Hcheck).
    intros [i j] Hin.
    destruct (empty_cell_setitem a i j p Hin) as [a' Hset].
    destruct (read_value_total_mark (1 + Agent.count_empty a) self a'
                (next_player p)) as (sc & m & Hrec).
    + eapply np_setitem_is_board; eassumption.
    + apply next_player_mark.
    + pose proof (child_count_le a a' i j p Hb Hin Hset). lia.
    + exists sc, a', m. split; assumption.
  - left. exists v. eexists. split; [exact Hcheck|]. split; [exact Hv|].
    apply (read_value_terminal _ self a p v Hcheck Hv).
Qed.

(** X8. [read_board] returns no move exactly when the game is over on the
    board; a move that it returns is an Empty cell of the grid. *)
Theorem read_board_move (self : Agent.t) (board : loc) (player : Z)
    (h : heap) (a : ndarray) :
  h !! board = Some a ->
  is_board a ->
  exists s m h',
    Agent.read_board self board player h = Done (s, m) h'
    /\ (m = None <-> Board.check_array a <> Ok 0%Z)
    /\ (forall i j, m = Some (i, j) ->
          i < 3 /\ j < 3 /\ np_getitem a i j = Ok 0%Z).
Proof.
  intros Hl Hb.
  destruct (read_board_value self board player h a Hl) as [ext Hrun].
  destruct (read_value_cases self a player Hb)
    as [(v & s & Hcheck & Hv & Hval)
       |(Hcheck & scores & idx & s & [i j] & Hval & _ & Hij & _)];
    rewrite Hval in Hrun.
  - exists s, None, (h ++ ext). split; [exact Hrun|]. split.
    + split; [intros _; congruence|reflexivity].
    + intros i j H. discriminate H.
  - exists s, (Some (i, j)), (h ++ ext). split; [exact Hrun|]. split.
    + split; [discriminate|congruence].
    + intros i' j' H. inversion H; subst.
      apply list_elem_of_lookup_2, list_elem_of_In in Hij.
      pose proof (empty_cells_in_grid a i' j' Hij) as [Hi Hj].
      apply empty_cells_spec in Hij as [_ Hget]. auto.
Qed.

Lemma read_board_move_witness :
  exists s m h',
    Agent.read_board (Agent.mk 2) 0 2 [sample_board] = Done (s, m) h'
    /\ (m = None <-> Board.check_array sample_board <> Ok 0%Z)
    /\ (forall i j, m = Some (i, j) ->
          i < 3 /\ j < 3 /\ np_getitem sample_board i j = Ok 0%Z).
Proof.
  exact (read_board_move (Agent.mk 2) 0 2 [sample_board] sample_board
           eq_refl sample_board_is_board).
Defined.

(** X9. The move that the agent computes on a snapshot of a board where the
    game is not over is accepted by [play] on the board itself, whatever
    the mark: [play] returns True and writes the mark in that cell. *)
Theorem agent_move_accepted (self : Agent.t) (game : Board.t)
    (player mark : Z) (h : heap) (a : ndarray) :
  h !! Board.__board game = Some a ->
  is_board a ->
  Board.check_array a = Ok 0%Z ->
  exists (c : loc) (h1 : heap) (s : Z) (i j : nat) (h2 : heap) (a' : ndarray),
    Board.get_board game h = Done c h1
    /\ Agent.read_board self c player h1 = Done (s, Some (i, j)) h2
    /\ Board.play game mark (Z.of_nat i) (Z.of_nat j) h2
       = Done true (<[Board.__board game := a']> h2)
    /\ np_setitem a i j mark = Ok a'.
Proof.
  intros Hl Hb Hcheck. pose proof (lookup_lt_Some _ _ _ Hl) as Hlt.
  assert (Hc : (h ++ [a]) !! length h = Some a)
    by (apply list_lookup_middle; reflexivity).
  destruct (read_board_value self (length h) player (h ++ [a]) a Hc)
    as [ext Hrun].
  destruct (read_value_cases self a player Hb)
    as [(v & s & Hcheck' & Hv & _)
       |(_ & scores & idx & s & [i j] & Hval & _ & Hij & _)];
    [congruence|].
  rewrite Hval in Hrun.
  apply list_elem_of_lookup_2, list_elem_of_In in Hij.
  pose proof (empty_cells_in_grid a i j Hij) as [Hi Hj].
  apply empty_cells_spec in Hij as [_ Hget].
  assert (Hl2 : ((h ++ [a]) ++ ext) !! Board.__board game = Some a).
  { rewrite <- app_assoc, lookup_app_l by assumption. exact Hl. }
  destruct (play_empty game _ a Hl2 mark (Z.of_nat i) (Z.of_nat j))
    as (a' & Hset & Hplay).
  - lia.
  - rewrite (is_board_shape a Hb). simpl. lia.
  - rewrite !Nat2Z.id. exact Hget.
  - rewrite !Nat2Z.id in Hset.
    exists (length h), (h ++ [a]), s, i, j, ((h ++ [a]) ++ ext), a'.
    split; [apply get_board_copy, Hl|]. auto.
Qed.

Lemma agent_move_accepted_witness :
  exists (c : loc) (h1 : heap) (s : Z) (i j : nat) (h2 : heap) (a' : ndarray),
    Board.get_board (Board.mk 0) [sample_board] = Done c h1
    /\ Agent.read_board (Agent.mk 2) c 2 h1 = Done (s, Some (i, j)) h2
    /\ Board.play (Board.mk 0) 2 (Z.of_nat i) (Z.of_nat j) h2
       = Done true (<[0 := a']> h2)
    /\ np_setitem sample_board i j 2 = Ok a'.
Proof.
  exact (agent_move_accepted (Agent.mk 2) (Board.mk 0) 2 2 [sample_board]
           sample_board eq_refl sample_board_is_board eq_refl).
Defined.

(** ** A line that can be completed *)

(** X10. When the player to move can complete a line of its mark, the score
    says so: 1 when that player is the agent, -1 when it is the agent's
    opponent. *)
Theorem read_board_takes_win (self : Agent.t) (board : loc) (player : Z)
    (h : heap) (a a' : ndarray) (i j : nat) :
  h !! board = Some a ->
  is_board a ->
  Board.check_array a = Ok 0%Z ->
  player = 1%Z \/ player = 2%Z ->
  np_getitem a i j = Ok 0%Z ->
  np_setitem a i j player = Ok a' ->
  Board.check_array a' = Ok player ->
  exists m h',
    Agent.read_board self board player h
    = Done ((if (Agent.player self =? player)%Z then 1 else -1)%Z, m) h'.
Proof.
  intros Hl Hb Hcheck Hp Hget Hset Hwin.
  destruct (read_board_value self board player h a Hl) as [ext Hrun].
  destruct (read_value_cases self a player Hb)
    as [(v & s & Hcheck' & Hv & _)
       |(_ & scores & idx & s & ij & Hval & Hscores & Hij & Hbest)];
    [congruence|].
  rewrite Hval in Hrun.
  assert (Hin : In (i, j) (empty_cells a)).
  { apply empty_cells_spec. split; [|exact Hget].
    apply np_getitem_Ok in Hget as (r & Hi & Hj).
    pose proof (lookup_lt_Some _ _ _ Hi) as Hi'.
    destruct Hb as [Hlen Hrows]. rewrite Forall_forall in Hrows.
    destruct (Hrows r (list_elem_of_lookup_2 _ _ _ Hi)) as [Hr _].
    pose proof (lookup_lt_Some _ _ _ Hj) as Hj'.
    assert (Hi3 : i = 0 \/ i = 1 \/ i = 2) by lia.
    assert (Hj3 : j = 0 \/ j = 1 \/ j = 2) by lia.
    destruct Hi3 as [ -> | [ -> | -> ] ]; destruct Hj3 as [ -> | [ -> | -> ] ];
      simpl; tauto. }
  apply list_elem_of_In, list_elem_of_lookup_1 in Hin as [k Hk].
  destruct (Forall2_lookup_l _ _ _ _ _ Hscores Hk)
    as (sc & Hsc & a1 & m1 & Hset1 & Hrec).
  simpl in Hset1. rewrite Hset in Hset1. inversion Hset1; subst a1.
  assert (Hv : player <> 0%Z) by lia.
  change (1 + Agent.count_empty a) with (S (Agent.count_empty a)) in Hrec.
  rewrite (read_value_terminal _ self a' (next_player player) player Hwin Hv)
    in Hrec.
  inversion Hrec as [[Hsc' Hm1]].
  replace (player =? -1)%Z with false in Hsc'
    by (symmetry; apply Z.eqb_neq; lia).
  rewrite (Z.eqb_sym player) in Hsc'.
  pose proof (read_value_fuel_score _ self a player s (Some ij) Hval)
    as Hrange.
  destruct Hbest as [_ Hbest].
  exists (Some ij), (h ++ ext). rewrite Hrun.
  assert (Hs : s = (if (Agent.player self =? player)%Z then 1 else -1)%Z);
    [|rewrite Hs; reflexivity].
  unfold is_score in Hrange. revert Hsc' Hbest.
  destruct (Agent.player self =? player)%Z; intros Hsc' Hbest;
    destruct (Hbest k sc Hsc) as [Hle _]; lia.
Qed.

Lemma read_board_takes_win_witness :
  exists m h',
    Agent.read_board (Agent.mk 2) 0 2 [sample_board] = Done (1%Z, m) h'.
Proof.
  exact (read_board_takes_win (Agent.mk 2) 0 2 [sample_board] sample_board
           [[1; 2; 1]; [0; 2; 0]; [0; 2; 0]]%Z 2 1
           eq_refl sample_board_is_board eq_refl (or_intror eq_refl)
           eq_refl eq_refl eq_refl).
Defined.

(** ** The two agents on the same position *)

Lemma opp_opp_list (l : list Z) : Z.opp <$> (Z.opp <$> l) = l.
Proof.
  rewrite <- list_fmap_compose. rewrite <- (list_fmap_id l) at 2.
  apply list_fmap_ext. intros _ x _. simpl. lia.
Qed.

Lemma np_argmin_opp (l : list Z) : np_argmin (Z.opp <$> l) = np_argmax l.
Proof.
  destruct l as [|x l]; [reflexivity|]. rewrite fmap_cons.
  unfold np_argmin, np_argmax.
  rewrite argmin_from_opp, opp_opp_list, Z.opp_involutive. reflexivity.
Qed.

Lemma np_argmax_opp (l : list Z) : np_argmax (Z.opp <$> l) = np_argmin l.
Proof.
  destruct l as [|x l]; [reflexivity|]. rewrite fmap_cons.
  unfold np_argmin, np_argmax. rewrite argmin_from_opp. reflexivity.
Qed.

Lemma np_min_opp (l : list Z) :
  np_min (Z.opp <$> l) = res_bind (np_max l) (fun s => Ok (- s)%Z).
Proof.
  destruct l as [|x l]; [reflexivity|]. rewrite fmap_cons.
  unfold np_min, np_max, res_bind.
  rewrite min_from_opp, opp_opp_list, Z.opp_involutive. reflexivity.
Qed.

Lemma np_max_opp (l : list Z) :
  np_max (Z.opp <$> l) = res_bind (np_min l) (fun s => Ok (- s)%Z).
Proof.
  destruct l as [|x l]; [reflexivity|]. rewrite fmap_cons.
  unfold np_min, np_max, res_bind.
  rewrite min_from_opp, Z.opp_involutive. reflexivity.
Qed.

Lemma pick_negate (p : Z) (rows cols : list nat) (scores : list Z) :
  p = 1%Z \/ p = 2%Z ->
  Some (Agent.pick (Agent.mk 2) p rows cols (Z.opp <$> scores))
  = negate (Some (Agent.pick (Agent.mk 1) p rows cols scores)).
Proof.
  intros [->| ->]; unfold Agent.pick; simpl.
  - rewrite np_argmin_opp, np_min_opp.
    destruct (np_argmax scores) as [idx|]; [|reflexivity].
    destruct (np_max scores) as [best|]; [|reflexivity]. simpl.
    destruct (index rows idx); [|reflexivity].
    destruct (index cols idx); reflexivity.
  - rewrite np_argmax_opp, np_max_opp.
    destruct (np_argmin scores) as [idx|]; [|reflexivity].
    destruct (np_min scores) as [best|]; [|reflexivity]. simpl.
    destruct (index rows idx); [|reflexivity].
    destruct (index cols idx); reflexivity.
Qed.

Lemma scores_value_negate recv1 recv2 (a : ndarray) (p : Z) :
  (forall a', recv2 a' (if (p =? 2)%Z then 1 else 2)%Z
              = negate (recv1 a' (if (p =? 2)%Z then 1 else 2)%Z)) ->
  forall (moves : list (nat * nat)) (scores : list Z),
    Agent.scores_value recv2 a p moves (Z.opp <$> scores)
    = negate_scores (Agent.scores_value recv1 a p moves scores).
Proof.
  intros Hrec. induction moves as [|[i j] moves IH]; intros scores;
    [reflexivity|].
  cbn [Agent.scores_value Agent.value_bind].
  destruct (np_setitem a i j p) as [a'|e]; [|reflexivity].
  rewrite Hrec.
  destruct (recv1 a' (if (p =? 2)%Z then 1 else 2)%Z) as [[[s m]|e]|];
    cbn [negate Agent.value_bind fst]; try reflexivity.
  rewrite <- IH, fmap_app. reflexivity.
Qed.

(** The agent that plays 2 computes the negated score of the agent that
    plays 1, and the same move. *)
Lemma read_value_fuel_negate (n : nat) :
  forall (a : ndarray) (p : Z),
    p = 1%Z \/ p = 2%Z ->
    Agent.read_value_fuel n (Agent.mk 2) a p
    = negate (Agent.read_value_fuel n (Agent.mk 1) a p).
Proof.
  induction n as [|n IH]; intros a p Hp; [reflexivity|].
  rewrite !read_value_fuel_eq.
  destruct (Board.check_array a) as [v|e] eqn:Hcheck;
    cbn [Agent.value_bind]; [|reflexivity].
  destruct (negb (v =? 0)%Z) eqn:Hv.
  - apply check_array_values in Hcheck.
    destruct Hcheck as [->|[->|[->| ->]]]; try discriminate Hv; reflexivity.
  - destruct (np_where (np_eq a 0)) as [rows cols].
    change (@nil Z) with (Z.opp <$> @nil Z) at 1.
    rewrite (scores_value_negate (Agent.read_value_fuel n (Agent.mk 1))
               (Agent.read_value_fuel n (Agent.mk 2)) a p).
    + destruct (Agent.scores_value (Agent.read_value_fuel n (Agent.mk 1)) a p
                  (zip rows cols) []) as [[scores|e]|];
        cbn [negate_scores Agent.value_bind]; try reflexivity.
      apply pick_negate, Hp.
    + intros a'. apply IH. destruct (p =? 2)%Z; auto.
Qed.

(** X11. The game is zero-sum for the two agents: on every board, with player
    1 or player 2 to move, the agent that plays 2 returns the move of the
    agent that plays 1, and the opposite score. *)
Theorem read_board_zero_sum (board : loc) (player : Z) (h : heap)
    (a : ndarray) :
  h !! board = Some a ->
  is_board a ->
  player = 1%Z \/ player = 2%Z ->
  exists s m h1 h2,
    Agent.read_board (Agent.mk 1) board player h = Done (s, m) h1
    /\ Agent.read_board (Agent.mk 2) board player h = Done ((- s)%Z, m) h2.
Proof.
  intros Hl Hb Hp.
  destruct (read_board_Done (Agent.mk 1) board player h a Hl Hb)
    as (s & m & Hval & _ & ext1 & Hrun1).
  destruct (read_board_value (Agent.mk 2) board player h a Hl)
    as [ext2 Hrun2].
  unfold Agent.read_value in Hrun2.
  rewrite (read_value_fuel_negate _ a player Hp),
    (Hval _ (Nat.le_refl _)) in Hrun2.
  exists s, m, (h ++ ext1), (h ++ ext2). split; assumption.
Qed.

Lemma read_board_zero_sum_witness :
  exists s m h1 h2,
    Agent.read_board (Agent.mk 1) 0 2 [sample_board] = Done (s, m) h1
    /\ Agent.read_board (Agent.mk 2) 0 2 [sample_board]
       = Done ((- s)%Z, m) h2.
Proof.
  exact (read_board_zero_sum 0 2 [sample_board] sample_board eq_refl
           sample_board_is_board (or_intror eq_refl)).
Defined.

(** * The terminal *)

(** ** [play] and its diagnostics *)

Lemma screen_play_spec (self : Board.t) (h : heap) (a : ndarray)
    (player row_i col_j : Z) :
  h !! Board.__board self = Some a ->
  rectangular a ->
  exists (valid : bool) (h' : heap) (out : list event),
    Screen.play self player row_i col_j h = Done (valid, out) h'
    /\ Board.play self player row_i col_j h = Done valid h'
    /\ out =
       (if valid then []
        else if ((0 <=? row_i) && (row_i <? Z.of_nat (fst (np_shape a)))
                 && (0 <=? col_j) && (col_j <? Z.of_nat (snd (np_shape a))))%Z
             then [Print ("Cannot play on this grid, please try again!" +:+ nl)]
             else [Print ("Incorrect coordinate, please try again!" +:+ nl)]).
Proof.
  intros Hself Hrect.
  unfold Screen.play, Board.play, bind, deref. rewrite Hself.
  destruct ((row_i <? 0) || (row_i >? Z.of_nat (fst (np_shape a)) - 1)
            || (col_j <? 0) || (col_j >? Z.of_nat (snd (np_shape a)) - 1))%Z
    eqn:Hrange.
  - exists false, h. eexists. split; [reflexivity|]. split; [reflexivity|].
    replace ((0 <=? row_i) && (row_i <? Z.of_nat (fst (np_shape a)))
             && (0 <=? col_j) && (col_j <? Z.of_nat (snd (np_shape a))))%Z
      with false; [reflexivity|].
    symmetry. apply not_true_iff_false. intros Hin.
    rewrite !andb_true_iff, !Z.leb_le, !Z.ltb_lt in Hin.
    rewrite !orb_true_iff, !Z.gtb_ltb, !Z.ltb_lt in Hrange. lia.
  - rewrite !orb_false_iff, !Z.gtb_ltb, !Z.ltb_ge in Hrange.
    destruct (rectangular_getitem a (Z.to_nat row_i) (Z.to_nat col_j) Hrect)
      as [c Hget]; [lia|lia|].
    unfold lift. rewrite Hget.
    destruct (negb (c =? 0)%Z) eqn:Hc.
    + exists false, h. eexists. split; [reflexivity|]. split; [reflexivity|].
      replace ((0 <=? row_i) && (row_i <? Z.of_nat (fst (np_shape a)))
               && (0 <=? col_j) && (col_j <? Z.of_nat (snd (np_shape a))))%Z
        with true; [reflexivity|].
      symmetry. rewrite !andb_true_iff, !Z.leb_le, !Z.ltb_lt. lia.
    + apply negb_false_iff, Z.eqb_eq in Hc. subst c.
      apply np_getitem_Ok in Hget as (r & Hi & Hj).
      pose proof (np_setitem_Ok a _ _ player r Hi (lookup_lt_Some _ _ _ Hj))
        as Hset.
      rewrite (setitem_store _ _ _ _ _ _ _ Hself Hset).
      exists true. do 2 eexists. split; [reflexivity|].
      split; reflexivity.
Qed.


(** X12. [play] prints one diagnostic exactly when it returns False, the one
    about the coordinate when a coordinate is outside the shape and the
    one about the grid otherwise, and prints nothing when it returns
    True; its result and the store are those of [play] without the
    printing. *)
Theorem play_diagnostic (self : Board.t) (h : heap) (a : ndarray)
    (player row_i col_j : Z) :
  h !! Board.__board self = Some a ->
  rectangular a ->
  exists (valid : bool) (h' : heap) (out : list event),
    Screen.play self player row_i col_j h = Done (valid, out) h'
    /\ Board.play self player row_i col_j h = Done valid h'
    /\ out =
       (if valid then []
        else if ((0 <=? row_i) && (row_i <? Z.of_nat (fst (np_shape a)))
                 && (0 <=? col_j) && (col_j <? Z.of_nat (snd (np_shape a))))%Z
             then [Print ("Cannot play on this grid, please try again!" +:+ nl)]
             else [Print ("Incorrect coordinate, please try again!" +:+ nl)]).
Proof. apply screen_play_spec. Qed.

Lemma play_diagnostic_witness :
  Screen.play (Board.mk 0) 1 0 1 [sample_board]
  = Done (false,
          [Print ("Cannot play on this grid, please try again!" +:+ nl)])
      [sample_board]
  /\ Screen.play (Board.mk 0) 1 0 3 [sample_board]
     = Done (false, [Print ("Incorrect coordinate, please try again!" +:+ nl)])
         [sample_board].
Proof.
  split.
  - destruct (play_diagnostic (Board.mk 0) [sample_board] sample_board 1 0 1
                eq_refl (is_board_rectangular _ sample_board_is_board))
      as (valid & h' & out & Hs & Hb & ->).
    rewrite Hs. change (Board.play (Board.mk 0) 1 0 1 [sample_board])
      with (@Done bool false [sample_board]) in Hb.
    inversion Hb; subst. reflexivity.
  - destruct (play_diagnostic (Board.mk 0) [sample_board] sample_board 1 0 3
                eq_refl (is_board_rectangular _ sample_board_is_board))
      as (valid & h' & out & Hs & Hb & ->).
    rewrite Hs. change (Board.play (Board.mk 0) 1 0 3 [sample_board])
      with (@Done bool false [sample_board]) in Hb.
    inversion Hb; subst. reflexivity.
Defined.

(** ** [display_board] *)

Lemma display_board_cells (self : Board.t) (h : heap)
    (c00 c01 c02 c10 c11 c12 c20 c21 c22 : Z) :
  h !! Board.__board self
  = Some [[c00; c01; c02]; [c10; c11; c12]; [c20; c21; c22]] ->
  Screen.display_board self h
  = Done (tt, Print ("  0 1 2" +:+ nl)
          :: Print "0 "
          :: (Screen.display_cell c00 ++ Screen.display_cell c01
              ++ Screen.display_cell c02 ++ [])
          ++ Print nl
          :: Print "1 "
          :: (Screen.display_cell c10 ++ Screen.display_cell c11
              ++ Screen.display_cell c12 ++ [])
          ++ Print nl
          :: Print "2 "
          :: (Screen.display_cell c20 ++ Screen.display_cell c21
              ++ Screen.display_cell c22 ++ [])
          ++ [Print nl]) h.
Proof.
  intros Hl. unfold Screen.display_board, bind, deref. rewrite Hl.
  reflexivity.
Qed.

Lemma display_cell_mark (c : Z) :
  is_mark_or_empty c -> Screen.display_cell c = [Print (glyph c)].
Proof. intros [->|[->| ->]]; reflexivity. Qed.

Lemma display_cell_other (c : Z) :
  ~ is_mark_or_empty c -> Screen.display_cell c = [].
Proof.
  unfold is_mark_or_empty, Screen.display_cell. intros H.
  destruct (c =? 0)%Z eqn:H0; [apply Z.eqb_eq in H0; tauto|].
  destruct (c =? 1)%Z eqn:H1; [apply Z.eqb_eq in H1; tauto|].
  destruct (c =? 2)%Z eqn:H2; [apply Z.eqb_eq in H2; tauto|].
  reflexivity.
Qed.

Lemma glyph_inj (c c' : Z) :
  is_mark_or_empty c -> is_mark_or_empty c' -> glyph c = glyph c' -> c = c'.
Proof.
  intros [->|[->| ->]] [->|[->| ->]]; cbn; intros H;
    try reflexivity; discriminate H.
Qed.

Lemma is_game_board_inv (a : ndarray) :
  is_game_board a ->
  exists c00 c01 c02 c10 c11 c12 c20 c21 c22,
    a = [[c00; c01; c02]; [c10; c11; c12]; [c20; c21; c22]]
    /\ Forall is_mark_or_empty
         [c00; c01; c02; c10; c11; c12; c20; c21; c22].
Proof.
  intros [Hlen Hrows].
  destruct a as [|r0 [|r1 [|r2 [|? ?]]]]; try discriminate.
  inversion Hrows as [|? ? [H0 C0] Hrows1]; subst.
  inversion Hrows1 as [|? ? [H1 C1] Hrows2]; subst.
  inversion Hrows2 as [|? ? [H2 C2] _]; subst.
  destruct r0 as [|c00 [|c01 [|c02 [|? ?]]]]; try discriminate.
  destruct r1 as [|c10 [|c11 [|c12 [|? ?]]]]; try discriminate.
  destruct r2 as [|c20 [|c21 [|c22 [|? ?]]]]; try discriminate.
  exists c00, c01, c02, c10, c11, c12, c20, c21, c22.
  split; [reflexivity|].
  repeat match goal with
         | H : Forall _ (_ :: _) |- _ => inversion H; clear H; subst
         end.
  repeat (apply List.Forall_cons; [assumption|]). apply List.Forall_nil.
Qed.

(** X13. On boards that hold marks of the game and Empty cells only, what
    [display_board] prints tells the boards apart: two boards that print
    the same are equal.  The store is not changed. *)
Theorem display_board_injective (self1 self2 : Board.t) (h1 h2 : heap)
    (a1 a2 : ndarray) :
  h1 !! Board.__board self1 = Some a1 ->
  h2 !! Board.__board self2 = Some a2 ->
  is_game_board a1 ->
  is_game_board a2 ->
  exists out1 out2,
    Screen.display_board self1 h1 = Done (tt, out1) h1
    /\ Screen.display_board self2 h2 = Done (tt, out2) h2
    /\ (out1 = out2 -> a1 = a2).
Proof.
  intros Hl1 Hl2 Hg1 Hg2.
  destruct (is_game_board_inv a1 Hg1)
    as (c00 & c01 & c02 & c10 & c11 & c12 & c20 & c21 & c22 & -> & Hc).
  destruct (is_game_board_inv a2 Hg2)
    as (d00 & d01 & d02 & d10 & d11 & d12 & d20 & d21 & d22 & -> & Hd).
  rewrite (display_board_cells _ _ _ _ _ _ _ _ _ _ _ Hl1),
    (display_board_cells _ _ _ _ _ _ _ _ _ _ _ Hl2).
  do 2 eexists. split; [reflexivity|]. split; [reflexivity|].
  repeat match goal with
         | H : Forall _ (_ :: _) |- _ => inversion H; clear H; subst
         end.
  rewrite !display_cell_mark by assumption. cbn [app].
  intros Heq. inversion Heq.
  repeat match goal with
         | H : glyph ?c = glyph ?d |- _ =>
             apply (glyph_inj c d) in H; [subst|assumption|assumption]
         end.
  reflexivity.
Qed.

Lemma sample_board_is_game_board : is_game_board sample_board.
Proof.
  split; [reflexivity|].
  repeat (apply List.Forall_cons;
          [split; [reflexivity|];
           repeat (apply List.Forall_cons;
                   [unfold is_mark_or_empty; lia|]); apply List.Forall_nil|]).
  apply List.Forall_nil.
Qed.

Lemma won_board_is_game_board : is_game_board won_board.
Proof.
  split; [reflexivity|].
  repeat (apply List.Forall_cons;
          [split; [reflexivity|];
           repeat (apply List.Forall_cons;
                   [unfold is_mark_or_empty; lia|]); apply List.Forall_nil|]).
  apply List.Forall_nil.
Qed.

Lemma display_board_injective_witness :
  exists out1 out2,
    Screen.display_board (Board.mk 0) [sample_board]
    = Done (tt, out1) [sample_board]
    /\ Screen.display_board (Board.mk 0) [won_board]
       = Done (tt, out2) [won_board]
    /\ (out1 = out2 -> sample_board = won_board).
Proof.
  exact (display_board_injective (Board.mk 0) (Board.mk 0) [sample_board]
           [won_board] sample_board won_board eq_refl eq_refl
           sample_board_is_game_board won_board_is_game_board).
Defined.

(** X14. A cell that holds another value than 0, 1 and 2 prints nothing: two
    boards that differ only in such cells print the same. *)
Theorem display_board_other_values (self1 self2 : Board.t) (h1 h2 : heap)
    (a1 a2 : ndarray) :
  h1 !! Board.__board self1 = Some a1 ->
  h2 !! Board.__board self2 = Some a2 ->
  is_board a1 ->
  is_board a2 ->
  same_on_screen a1 a2 ->
  exists out,
    Screen.display_board self1 h1 = Done (tt, out) h1
    /\ Screen.display_board self2 h2 = Done (tt, out) h2.
Proof.
  intros Hl1 Hl2 Hb1 Hb2 Hsame.
  destruct (is_board_inv a1 Hb1)
    as (c00 & c01 & c02 & c10 & c11 & c12 & c20 & c21 & c22 & -> & _).
  destruct (is_board_inv a2 Hb2)
    as (d00 & d01 & d02 & d10 & d11 & d12 & d20 & d21 & d22 & -> & _).
  assert (Hcell : forall i j ca cb,
             np_getitem [[c00; c01; c02]; [c10; c11; c12]; [c20; c21; c22]]
               i j = Ok ca ->
             np_getitem [[d00; d01; d02]; [d10; d11; d12]; [d20; d21; d22]]
               i j = Ok cb ->
             Screen.display_cell ca = Screen.display_cell cb).
  { intros i j ca cb Ha Hb.
    destruct (Hsame i j ca cb Ha Hb) as [->|[Hna Hnb]]; [reflexivity|].
    rewrite !display_cell_other by assumption. reflexivity. }
  rewrite (display_board_cells _ _ _ _ _ _ _ _ _ _ _ Hl1),
    (display_board_cells _ _ _ _ _ _ _ _ _ _ _ Hl2).
  eexists. split; [reflexivity|].
  rewrite (Hcell 0 0 c00 d00 eq_refl eq_refl),
    (Hcell 0 1 c01 d01 eq_refl eq_refl), (Hcell 0 2 c02 d02 eq_refl eq_refl),
    (Hcell 1 0 c10 d10 eq_refl eq_refl), (Hcell 1 1 c11 d11 eq_refl eq_refl),
    (Hcell 1 2 c12 d12 eq_refl eq_refl), (Hcell 2 0 c20 d20 eq_refl eq_refl),
    (Hcell 2 1 c21 d21 eq_refl eq_refl), (Hcell 2 2 c22 d22 eq_refl eq_refl).
  reflexivity.
Qed.

Lemma odd_boards_same_on_screen :
  same_on_screen odd_board [[1; 2; 1]; [9; 2; 0]; [0; 0; 0]]%Z.
Proof.
  intros i j ca cb Ha Hb.
  destruct i as [|[|[|i]]]; destruct j as [|[|[|j]]];
    cbn in Ha, Hb; try discriminate Ha;
    inversion Ha; inversion Hb; subst;
    first [left; reflexivity | right; unfold is_mark_or_empty; lia].
Qed.

Lemma display_board_other_values_witness :
  exists out,
    Screen.display_board (Board.mk 0) [odd_board]
    = Done (tt, out) [odd_board]
    /\ Screen.display_board (Board.mk 0) [[[1; 2; 1]; [9; 2; 0]; [0; 0; 0]]%Z]
       = Done (tt, out) [[[1; 2; 1]; [9; 2; 0]; [0; 0; 0]]%Z].
Proof.
  apply (display_board_other_values (Board.mk 0) (Board.mk 0) [odd_board]
           [[[1; 2; 1]; [9; 2; 0]; [0; 0; 0]]%Z] odd_board
           [[1; 2; 1]; [9; 2; 0]; [0; 0; 0]]%Z eq_refl eq_refl).
  - apply is_board_intro. unfold is_cell.
    repeat (apply List.Forall_cons; [lia|]). apply List.Forall_nil.
  - apply is_board_intro. unfold is_cell.
    repeat (apply List.Forall_cons; [lia|]). apply List.Forall_nil.
  - exact odd_boards_same_on_screen.
Defined.

(** * The script *)

(** ** Steps of the script *)

Lemma call_Done {A} (m : M (A * list event)) (h h' : heap)
    (inputs : list string) (a : A) (out : list event) :
  m h = Done (a, out) h' -> Main.call m h inputs = (out, Main.Ret a h' inputs).
Proof. intros H. unfold Main.call. rewrite H. reflexivity. Qed.

Lemma quiet_Done {A} (m : M A) (h h' : heap) (inputs : list string) (a : A) :
  m h = Done a h' -> Main.quiet m h inputs = ([], Main.Ret a h' inputs).
Proof.
  intros H. unfold Main.quiet, Main.call, bind, ret. rewrite H. reflexivity.
Qed.

Lemma io_bind_Ret {A B} (m : Main.IO A) (k : A -> Main.IO B) (h h' : heap)
    (inputs inputs' : list string) (a : A) (out : list event) :
  m h inputs = (out, Main.Ret a h' inputs') ->
  Main.io_bind m k h inputs
  = (let '(out', r) := k a h' inputs' in (out ++ out', r)).
Proof. intros H. unfold Main.io_bind. rewrite H. reflexivity. Qed.

Lemma io_bind_Exc {A B} (m : Main.IO A) (k : A -> Main.IO B) (h h' : heap)
    (inputs inputs' : list string) e (out : list event) :
  m h inputs = (out, Main.Exc e h' inputs') ->
  Main.io_bind m k h inputs = (out, Main.Exc e h' inputs').
Proof. intros H. unfold Main.io_bind. rewrite H. reflexivity. Qed.

(** ** What the board prints is never the line of the human's win *)

Lemma display_cell_quiet (c : Z) : ~ In human_wins (Screen.display_cell c).
Proof.
  unfold Screen.display_cell, human_wins.
  destruct (c =? 0)%Z, (c =? 1)%Z, (c =? 2)%Z; simpl;
    intros H; repeat (destruct H as [H|H]; [discriminate H|]); exact H.
Qed.

Ltac no_win H :=
  lazymatch type of H with
  | In _ (_ ++ _) =>
      apply in_app_or in H; destruct H as [H|H]; [no_win H|no_win H]
  | In _ (_ :: _) =>
      destruct H as [H|H];
      [first [discriminate H|cbn in H; discriminate H|idtac]|no_win H]
  | In _ [] => destruct H
  | In _ (Screen.display_cell _) => exact (display_cell_quiet _ H)
  | _ => idtac
  end.

Lemma display_board_quiet (self : Board.t) (h : heap) (a : ndarray) :
  h !! Board.__board self = Some a ->
  is_board a ->
  exists out,
    Screen.display_board self h = Done (tt, out) h /\ ~ In human_wins out.
Proof.
  intros Hl Hb. board_cells a Hb.
  rewrite (display_board_cells _ _ _ _ _ _ _ _ _ _ _ Hl).
  eexists. split; [reflexivity|].
  intros H. no_win H.
Qed.

Lemma screen_play_cases (self : Board.t) (h : heap) (a : ndarray)
    (player row_i col_j : Z) :
  h !! Board.__board self = Some a ->
  is_board a ->
  (exists a',
     Screen.play self player row_i col_j h
       = Done (true, []) (<[Board.__board self := a']> h)
     /\ np_setitem a (Z.to_nat row_i) (Z.to_nat col_j) player = Ok a'
     /\ In (Z.to_nat row_i, Z.to_nat col_j) (empty_cells a))
  \/ (exists out,
        Screen.play self player row_i col_j h = Done (false, out) h
        /\ ~ In human_wins out
        /\ ~ ((0 <= row_i < 3)%Z /\ (0 <= col_j < 3)%Z
              /\ np_getitem a (Z.to_nat row_i) (Z.to_nat col_j) = Ok 0%Z)).
Proof.
  intros Hl Hb. pose proof (is_board_rectangular a Hb) as Hrect.
  pose proof (is_board_shape a Hb) as Hshape.
  destruct (screen_play_spec self h a player row_i col_j Hl Hrect)
    as (valid & h' & out & Hs & Hp & Hout).
  destruct (play_any_shape_cases self h a player row_i col_j Hl Hrect)
    as [(a' & Hplay & Hset & Hr & Hc & Hget)|[Hplay Hno]];
    rewrite Hplay in Hp; inversion Hp; subst valid h'.
  - left. exists a'. simpl in Hout. subst out.
    split; [exact Hs|]. split; [exact Hset|].
    apply empty_cells_spec. split; [|exact Hget].
    rewrite Hshape in Hr, Hc. simpl in Hr, Hc.
    assert (Hi : Z.to_nat row_i = 0 \/ Z.to_nat row_i = 1
                 \/ Z.to_nat row_i = 2) by lia.
    assert (Hj : Z.to_nat col_j = 0 \/ Z.to_nat col_j = 1
                 \/ Z.to_nat col_j = 2) by lia.
    destruct Hi as [ -> | [ -> | -> ] ]; destruct Hj as [ -> | [ -> | -> ] ];
      simpl; tauto.
  - right. exists out. split; [exact Hs|]. split.
    + rewrite Hout.
      destruct ((0 <=? row_i) && (row_i <? Z.of_nat (fst (np_shape a)))
                && (0 <=? col_j) && (col_j <? Z.of_nat (snd (np_shape a))))%Z;
        intros [H|[]]; discriminate H.
    + rewrite Hshape in Hno. exact Hno.
Qed.

(** ** The passes of the loop *)

Lemma zeros_is_board : is_board (np_zeros 3 3).
Proof.
  apply is_board_intro. unfold is_cell.
  repeat (apply List.Forall_cons; [lia|]). apply List.Forall_nil.
Qed.

(** From the empty grid, with the human to move, the agent of the script
    does not lose: every line of play of the human is followed to its
    end. *)
Lemma human_ok_start : human_ok 5 (np_zeros 3 3) = true.
Proof. vm_compute. reflexivity. Qed.

Lemma after_valid_safe (player_name : string) (v : Main.vars) (h : heap)
    (inputs : list string) (a : ndarray) (value : Z) out r :
  h !! Board.__board (Main.game v) = Some a ->
  is_board a ->
  Board.check_array a = Ok value ->
  Main.after_valid player_name v h inputs = (out, r) ->
  (value <> 1%Z -> ~ In human_wins out)
  /\ match r with
     | Main.Ret (Some v') h' inputs' =>
         (value = 0%Z /\ v' = Main.mk (Main.game v) (Main.player v + 1)
          /\ h' = h /\ inputs' = inputs)
         \/ (Main.player v' = 0
             /\ h' !! Board.__board (Main.game v') = Some (np_zeros 3 3)
             /\ length inputs' < length inputs)
     | Main.Ret None _ _ => True
     | Main.Exc Main.EOFError _ _ => True
     | _ => False
     end.
Proof.
  intros Hl Hb Hcheck.
  destruct (display_board_quiet (Main.game v) h a Hl Hb) as (out1 & Hd & Hq1).
  pose proof (check_board_array (Main.game v) h a Hl) as Hc.
  rewrite Hcheck in Hc. cbn [embed] in Hc.
  unfold Main.after_valid.
  rewrite (io_bind_Ret _ _ _ _ _ _ _ _ (call_Done _ _ _ _ _ _ Hd)).
  rewrite (io_bind_Ret _ _ _ _ _ _ _ _ (quiet_Done _ _ _ _ _ Hc)).
  destruct (value =? 0)%Z eqn:H0.
  - apply Z.eqb_eq in H0. cbn. intros Heq. inversion Heq; subst.
    split; [intros _ H; no_win H; exact (Hq1 H)|]. left. auto.
  - apply Z.eqb_neq in H0.
    assert (Hmsg : (value =? -1)%Z = true \/ value = 2%Z \/ value = 1%Z).
    { destruct (check_array_values a value Hcheck) as [?|[?|[?|?]]];
        subst; try congruence; auto. }
    set (msg := if (value =? -1)%Z then Main.print "No one win."
                else Main.print ("Player " +:+ str_Z value +:+ " win!!!")).
    assert (Hprint : exists e, (value <> 1%Z -> e <> human_wins)
               /\ forall h0 i0, msg h0 i0 = ([e], Main.Ret tt h0 i0)).
    { unfold msg. destruct Hmsg as [->|[->| ->]].
      - eexists. split; [|reflexivity]. discriminate.
      - eexists. split; [|reflexivity]. discriminate.
      - eexists. split; [|reflexivity]. congruence. }
    destruct Hprint as (e & He & Hprint).
    rewrite (io_bind_Ret _ _ _ _ _ _ _ _ (Hprint h inputs)).
    destruct inputs as [|answer inputs'].
    + cbn. intros Heq. inversion Heq; subst. split; [|exact I].
      intros Hv H. specialize (He Hv).
      no_win H; first [congruence|exact (Hq1 H)].
    + assert (Hin : Main.input "Do you want to play again? (y/n): " h
                      (answer :: inputs')
                    = ([Prompt "Do you want to play again? (y/n): "],
                       Main.Ret answer h inputs')) by reflexivity.
      rewrite (io_bind_Ret _ _ _ _ _ _ _ _ Hin).
      destruct (existsb (String.eqb answer) ["y"; "1"; "yes"]).
      * assert (Hnew : (h ++ [np_zeros 3 3]) !! length h
                       = Some (np_zeros 3 3))
          by (apply list_lookup_middle; reflexivity).
        destruct (display_board_quiet (Board.mk (length h))
                    (h ++ [np_zeros 3 3]) (np_zeros 3 3) Hnew zeros_is_board)
          as (out2 & Hd2 & Hq2).
        assert (Hclear : Main.clear h inputs' = ([Clear], Main.Ret tt h inputs'))
          by reflexivity.
        assert (Herase : Board.erase_board (Main.game v) h
                         = Done (Board.mk (length h)) (h ++ [np_zeros 3 3]))
          by reflexivity.
        rewrite (io_bind_Ret _ _ _ _ _ _ _ _ Hclear).
        rewrite (io_bind_Ret _ _ _ _ _ _ _ _ (quiet_Done _ _ _ _ _ Herase)).
        rewrite (io_bind_Ret _ _ _ _ _ _ _ _ (call_Done _ _ _ _ _ _ Hd2)).
        cbn. intros Heq. inversion Heq; subst. split.
        -- intros Hv H. specialize (He Hv).
           no_win H; first [congruence|exact (Hq1 H)|exact (Hq2 H)].
        -- right. split; [reflexivity|]. split; [exact Hnew|]. simpl. lia.
      * cbn. intros Heq. inversion Heq; subst. split; [|exact I].
        intros Hv H. specialize (He Hv).
        no_win H; first [congruence|exact (Hq1 H)].
Qed.

Lemma turn_human int (v : Main.vars) (h : heap) (inputs : list string) :
  (Main.player v mod 2 =? 0)%nat = true ->
  exists out rt,
    Main.turn int v h inputs = (out, rt)
    /\ ~ In human_wins out
    /\ match rt with
       | Main.Ret _ h' inputs' => h' = h /\ length inputs' < length inputs
       | Main.Exc Main.EOFError _ _ => True
       | Main.Exc (Main.Core ValueError) h' inputs' =>
           h' = h /\ length inputs' < length inputs
       | _ => False
       end.
Proof.
  intros Hpar. unfold Main.turn. rewrite Hpar.
  destruct inputs as [|l1 inputs1].
  - do 2 eexists. split; [reflexivity|]. split; [|exact I].
    intros H. no_win H.
  - unfold Main.io_bind at 1. cbn [Main.input].
    unfold Main.io_bind at 1, Main.int_of.
    destruct (int l1) as [row|].
    + cbn [Main.io_ret]. destruct inputs1 as [|l2 inputs2].
      * do 2 eexists. split; [reflexivity|]. split; [|exact I].
        intros H. no_win H.
      * unfold Main.io_bind at 1. cbn [Main.input].
        unfold Main.io_bind at 1.
        destruct (int l2) as [col|].
        -- do 2 eexists. split; [reflexivity|]. split.
           ++ intros H. no_win H.
           ++ split; [reflexivity|]. simpl. lia.
        -- do 2 eexists. split; [reflexivity|]. split.
           ++ intros H. no_win H.
           ++ split; [reflexivity|]. simpl. lia.
    + do 2 eexists. split; [reflexivity|]. split.
      * intros H. no_win H.
      * split; [reflexivity|]. simpl. lia.
Qed.

Lemma turn_agent int (v : Main.vars) (h : heap) (inputs : list string)
    (a : ndarray) (k : ndarray -> bool) :
  h !! Board.__board (Main.game v) = Some a ->
  agent_ok k a = true ->
  (Main.player v mod 2 =? 0)%nat = false ->
  exists out i j ext,
    Main.turn int v h inputs
    = (out, Main.Ret (Z.of_nat i, Z.of_nat j) (h ++ ext) inputs)
    /\ ~ In human_wins out
    /\ cell_is a 0 (i, j) = true
    /\ after_mark k a 2 (i, j) = true.
Proof.
  intros Hl Hok Hpar. unfold Main.turn. rewrite Hpar.
  rewrite (io_bind_Ret _ _ _ _ _ _ _ _
             (quiet_Done _ _ _ inputs _ (get_board_copy _ _ _ Hl))).
  assert (Hc : (h ++ [a]) !! length h = Some a)
    by (apply list_lookup_middle; reflexivity).
  destruct (read_board_value Main.ai_player (length h) 2 (h ++ [a]) a Hc)
    as [ext Hrun].
  unfold agent_ok in Hok.
  destruct (Agent.read_value Main.ai_player a 2) as [[[s [[i j]|]]|]|];
    try discriminate Hok.
  apply andb_true_iff in Hok as [Hcell Hafter].
  cbn [embed] in Hrun.
  rewrite (io_bind_Ret _ _ _ _ _ _ _ _ (quiet_Done _ _ _ inputs _ Hrun)).
  exists [Print (("A.I. move: " +:+ str_nat i +:+ " " +:+ str_nat j) +:+ nl)],
    i, j, ([a] ++ ext).
  split; [rewrite app_assoc; reflexivity|]. split; [|auto].
  intros H. no_win H.
Qed.

Lemma after_mark_inv (k : ndarray -> bool) (a a' : ndarray) (p : Z)
    (ij : nat * nat) :
  after_mark k a p ij = true ->
  np_setitem a (fst ij) (snd ij) p = Ok a' ->
  exists value,
    Board.check_array a' = Ok value /\ value <> 1%Z
    /\ (value = 0%Z -> k a' = true).
Proof.
  unfold after_mark. intros H Hset. rewrite Hset in H.
  destruct (Board.check_array a') as [value|]; [|discriminate H].
  exists value. split; [reflexivity|].
  destruct (value =? 0)%Z eqn:H0.
  - apply Z.eqb_eq in H0. subst. split; [discriminate|auto].
  - apply Z.eqb_neq in H0. apply negb_true_iff, Z.eqb_neq in H.
    split; [exact H|]. intros ?. contradiction.
Qed.

Lemma board_getitem_bounds (a : ndarray) (i j : nat) (c : Z) :
  is_board a -> np_getitem a i j = Ok c -> i < 3 /\ j < 3.
Proof.
  intros [Hlen Hrows] Hget. apply np_getitem_Ok in Hget as (r & Hi & Hj).
  rewrite Forall_forall in Hrows.
  destruct (Hrows r (list_elem_of_lookup_2 _ _ _ Hi)) as [Hr _].
  apply lookup_lt_Some in Hi, Hj. lia.
Qed.

(** The end of a pass after a move that [play] accepted, from a position
    that the invariant covers. *)
Lemma pass_after_move (player_name : string) (v : Main.vars)
    (h h1 : heap) (inputs inputs1 : list string) (a a' : ndarray)
    (k : ndarray -> bool) (ij : nat * nat) (out0 : list event) out r :
  h1 !! Board.__board (Main.game v) = Some a' ->
  is_board a' ->
  np_setitem a (fst ij) (snd ij) (Z.of_nat (Main.player v mod 2 + 1)) = Ok a' ->
  after_mark k a (Z.of_nat (Main.player v mod 2 + 1)) ij = true ->
  (if (Main.player v mod 2 =? 0)%nat
   then exists n, k = agent_ok (human_ok n)
   else exists n, k = human_ok n) ->
  passes_left (Main.mk (Main.game v) (Main.player v + 1)) inputs1
  < passes_left v inputs ->
  length inputs1 <= length inputs ->
  ~ In human_wins out0 ->
  (let '(out', r') := Main.after_valid player_name v h1 inputs1 in
   (out0 ++ out', r')) = (out, r) ->
  ~ In human_wins out
  /\ match r with
     | Main.Ret (Some v') h' inputs' =>
         loop_invariant h' v'
         /\ passes_left v' inputs' < passes_left v inputs
     | Main.Ret None _ _ => True
     | Main.Exc Main.EOFError _ _ => True
     | _ => False
     end.
Proof.
  intros Hl1 Hb' Hset Hafter Hk Hpass Hlen Hq0.
  destruct (after_mark_inv k a a' _ ij Hafter Hset) as (value & Hcheck & Hv & Hgo).
  destruct (Main.after_valid player_name v h1 inputs1) as [out' r'] eqn:Hav.
  destruct (after_valid_safe player_name v h1 inputs1 a' value out' r'
              Hl1 Hb' Hcheck Hav) as [Hq' Hr'].
  specialize (Hq' Hv).
  intros Heq. inversion Heq; subst out r. split.
  - intros H. apply in_app_or in H. tauto.
  - destruct r' as [[v'|] h' inputs'|e h' inputs'| |]; try exact Hr'.
    destruct Hr' as [(-> & -> & -> & ->)|(Hp0 & Hzero & Hlt)].
    + split; [|exact Hpass]. exists a'. split; [exact Hl1|].
      split; [exact Hb'|]. cbn [Main.player].
      destruct (Main.player v mod 2 =? 0)%nat eqn:Hpar.
      * destruct Hk as [n ->]. exists n.
        replace ((Main.player v + 1) mod 2 =? 0)%nat with false; [auto|].
        apply Nat.eqb_eq in Hpar.
        rewrite Nat.Div0.add_mod, Hpar. reflexivity.
      * destruct Hk as [n ->]. exists n.
        replace ((Main.player v + 1) mod 2 =? 0)%nat with true; [auto|].
        apply Nat.eqb_neq in Hpar.
        pose proof (Nat.mod_upper_bound (Main.player v) 2 ltac:(lia)) as Hlt.
        assert (Hone : Main.player v mod 2 = 1) by lia.
        rewrite Nat.Div0.add_mod, Hone. reflexivity.
    + split.
      * exists (np_zeros 3 3). split; [exact Hzero|].
        split; [exact zeros_is_board|]. exists 5. rewrite Hp0.
        exact human_ok_start.
      * unfold passes_left. rewrite Hp0. simpl Nat.modulo. lia.
Qed.

(** One pass of the loop from a position that the invariant covers: the
    human's win is not printed; the pass ends the script, or stops at the
    end of the input, or leaves a position that the invariant covers with
    fewer passes left. *)
Lemma body_safe int (player_name : string) (v : Main.vars) (h : heap)
    (inputs : list string) out r :
  loop_invariant h v ->
  Main.body int player_name v h inputs = (out, r) ->
  ~ In human_wins out
  /\ match r with
     | Main.Ret (Some v') h' inputs' =>
         loop_invariant h' v'
         /\ passes_left v' inputs' < passes_left v inputs
     | Main.Ret None _ _ => True
     | Main.Exc Main.EOFError _ _ => True
     | _ => False
     end.
Proof.
  intros (a & Hl & Hb & n & Hn).
  pose proof (lookup_lt_Some _ _ _ Hl) as Hlt.
  unfold Main.body, Main.try_except_ValueError.
  destruct (Main.player v mod 2 =? 0)%nat eqn:Hpar.
  - (* the human *)
    assert (Hmark : Z.of_nat (Main.player v mod 2 + 1) = 1%Z)
      by (apply Nat.eqb_eq in Hpar; rewrite Hpar; reflexivity).
    destruct (turn_human int v h inputs Hpar) as (out_t & rt & Ht & Hq & Hrt).
    destruct rt as [[row col] h1 inputs1|e h1 inputs1| |]; try contradiction.
    + destruct Hrt as [-> Hlen].
      rewrite (io_bind_Ret _ _ _ _ _ _ _ _ Ht).
      destruct (screen_play_cases (Main.game v) h a
                  (Z.of_nat (Main.player v mod 2 + 1)) row col Hl Hb)
        as [(a' & Hs & Hset & Hin)|(out_p & Hs & Hqp & _)].
      * rewrite (io_bind_Ret _ _ _ _ _ _ _ _ (call_Done _ _ _ inputs1 _ _ Hs)).
        destruct n as [|n]; [discriminate Hn|]. cbn [human_ok] in Hn.
        rewrite forallb_forall in Hn. specialize (Hn _ Hin).
        rewrite <- Hmark in Hn.
        destruct (Main.after_valid player_name v
                    (<[Board.__board (Main.game v) := a']> h) inputs1)
          as [out' r'] eqn:Hav.
        assert (Hres :
          ~ In human_wins (out_t ++ [] ++ out')
          /\ match r' with
             | Main.Ret (Some v') h' inputs' =>
                 loop_invariant h' v'
                 /\ passes_left v' inputs' < passes_left v inputs
             | Main.Ret None _ _ => True
             | Main.Exc Main.EOFError _ _ => True
             | _ => False
             end).
        { apply (pass_after_move player_name v h
                   (<[Board.__board (Main.game v) := a']> h) inputs inputs1
                   a a' (agent_ok (human_ok n))
                   (Z.to_nat row, Z.to_nat col) (out_t ++ [])).
          - apply list_lookup_insert_eq. exact Hlt.
          - eapply np_setitem_is_board; eassumption.
          - exact Hset.
          - exact Hn.
          - rewrite Hpar. eauto.
          - unfold passes_left. cbn [Main.player].
            apply Nat.eqb_eq in Hpar.
            rewrite Nat.Div0.add_mod, Hpar. simpl Nat.modulo. lia.
          - lia.
          - rewrite app_nil_r. exact Hq.
          - rewrite Hav, <- app_assoc. reflexivity. }
        destruct Hres as [Hqres Hr'].
        destruct r' as [[v'|] h' inputs'|[[|]| |] h' inputs'| |];
          try contradiction;
          intros Heq; inversion Heq; subst; auto.
      * rewrite (io_bind_Ret _ _ _ _ _ _ _ _ (call_Done _ _ _ inputs1 _ _ Hs)).
        intros Heq. cbn in Heq. inversion Heq; subst. split.
        -- intros H. no_win H; first [exact (Hq H)|exact (Hqp H)].
        -- split; [exists a; split; [exact Hl|];
                   split; [exact Hb|]; exists n; rewrite Hpar; exact Hn|].
           unfold passes_left. lia.
    + rewrite (io_bind_Exc _ _ _ _ _ _ _ _ Ht).
      destruct e as [[|]| |]; try contradiction.
      * destruct Hrt as [-> Hlen]. intros Heq. cbn in Heq. inversion Heq; subst.
        split.
        -- intros H. no_win H; exact (Hq H).
        -- split; [exists a; split; [exact Hl|];
                   split; [exact Hb|]; exists n; rewrite Hpar; exact Hn|].
           unfold passes_left. lia.
      * intros Heq. inversion Heq; subst. auto.
  - (* the agent *)
    assert (Hmark : Z.of_nat (Main.player v mod 2 + 1) = 2%Z).
    { apply Nat.eqb_neq in Hpar.
      pose proof (Nat.mod_upper_bound (Main.player v) 2 ltac:(lia)).
      assert (Hone : Main.player v mod 2 = 1) by lia.
      rewrite Hone. reflexivity. }
    destruct (turn_agent int v h inputs a (human_ok n) Hl Hn Hpar)
      as (out_t & i & j & ext & Ht & Hq & Hcell & Hafter).
    rewrite (io_bind_Ret _ _ _ _ _ _ _ _ Ht).
    assert (Hl2 : (h ++ ext) !! Board.__board (Main.game v) = Some a)
      by (rewrite lookup_app_l by assumption; exact Hl).
    pose proof Hcell as Hget. apply cell_is_spec in Hget.
    destruct (board_getitem_bounds a i j 0%Z Hb Hget) as [Hi Hj].
    destruct (screen_play_cases (Main.game v) (h ++ ext) a
                (Z.of_nat (Main.player v mod 2 + 1)) (Z.of_nat i)
                (Z.of_nat j) Hl2 Hb)
      as [(a' & Hs & Hset & Hin)|(out_p & Hs & Hqp & Hno)].
    + rewrite (io_bind_Ret _ _ _ _ _ _ _ _ (call_Done _ _ _ inputs _ _ Hs)).
      rewrite !Nat2Z.id in Hset. rewrite <- Hmark in Hafter.
      destruct (Main.after_valid player_name v
                  (<[Board.__board (Main.game v) := a']> (h ++ ext)) inputs)
        as [out' r'] eqn:Hav.
      assert (Hres :
        ~ In human_wins (out_t ++ [] ++ out')
        /\ match r' with
           | Main.Ret (Some v') h' inputs' =>
               loop_invariant h' v'
               /\ passes_left v' inputs' < passes_left v inputs
           | Main.Ret None _ _ => True
           | Main.Exc Main.EOFError _ _ => True
           | _ => False
           end).
      { apply (pass_after_move player_name v h
                 (<[Board.__board (Main.game v) := a']> (h ++ ext))
                 inputs inputs a a' (human_ok n) (i, j) (out_t ++ [])).
        - apply list_lookup_insert_eq. rewrite length_app. lia.
        - eapply np_setitem_is_board; eassumption.
        - exact Hset.
        - exact Hafter.
        - rewrite Hpar. eauto.
        - unfold passes_left. cbn [Main.player].
          apply Nat.eqb_neq in Hpar.
          pose proof (Nat.mod_upper_bound (Main.player v) 2 ltac:(lia)).
          assert (Hone : Main.player v mod 2 = 1) by lia.
          rewrite Nat.Div0.add_mod, Hone. simpl Nat.modulo. lia.
        - lia.
        - rewrite app_nil_r. exact Hq.
        - rewrite Hav, <- app_assoc. reflexivity. }
      destruct Hres as [Hqres Hr'].
      destruct r' as [[v'|] h' inputs'|[[|]| |] h' inputs'| |];
        try contradiction;
        intros Heq; inversion Heq; subst; auto.
    + exfalso. apply Hno. rewrite !Nat2Z.id. repeat split; try lia.
      exact Hget.
Qed.

(** ** The loop and the script *)

Lemma loop_safe int (player_name : string) (fuel : nat) :
  forall (v : Main.vars) (h : heap) (inputs : list string) out r,
    loop_invariant h v ->
    Main.loop int fuel player_name v h inputs = (out, r) ->
    ~ In human_wins out
    /\ (passes_left v inputs < fuel -> ends_well r).
Proof.
  induction fuel as [|fuel IH]; intros v h inputs out r Hinv Hrun.
  - inversion Hrun; subst. split; [intros []|lia].
  - cbn [Main.loop] in Hrun.
    destruct (Main.body int player_name v h inputs) as [out_b r_b] eqn:Hbody.
    destruct (body_safe int player_name v h inputs out_b r_b Hinv Hbody)
      as [Hq Hr].
    destruct r_b as [[v'|] h' inputs'|e h' inputs'| |]; try contradiction.
    + rewrite (io_bind_Ret _ _ _ _ _ _ _ _ Hbody) in Hrun.
      destruct Hr as [Hinv' Hless].
      destruct (Main.loop int fuel player_name v' h' inputs')
        as [out' r'] eqn:Hrest.
      destruct (IH v' h' inputs' out' r' Hinv' Hrest) as [Hq' Hend].
      inversion Hrun; subst. split.
      * intros H. apply in_app_or in H. tauto.
      * intros Hfuel. apply Hend. lia.
    + rewrite (io_bind_Ret _ _ _ _ _ _ _ _ Hbody) in Hrun.
      cbn in Hrun. inversion Hrun; subst. split; [|intros _; exact I].
      intros H. apply in_app_or in H as [H|[]]. exact (Hq H).
    + rewrite (io_bind_Exc _ _ _ _ _ _ _ _ Hbody) in Hrun.
      inversion Hrun; subst. split; [exact Hq|].
      intros _. destruct e; try contradiction. exact I.
Qed.

Lemma main_safe int (fuel : nat) (h : heap) (inputs : list string) out r :
  Main.main int fuel h inputs = (out, r) ->
  ~ In human_wins out /\ (2 * length inputs <= fuel -> ends_well r).
Proof.
  unfold Main.main. destruct inputs as [|player_name inputs].
  - intros Hrun. inversion Hrun; subst. split; [|intros _; exact I].
    intros H. no_win H.
  - assert (Hin : Main.input "What is your name? " h (player_name :: inputs)
                  = ([Prompt "What is your name? "],
                     Main.Ret player_name h inputs)) by reflexivity.
    rewrite (io_bind_Ret _ _ _ _ _ _ _ _ Hin).
    unfold Main.io_bind at 1, Main.print.
    assert (Hinit : Board.__init__ h
                    = Done (Board.mk (length h)) (h ++ [np_zeros 3 3]))
      by reflexivity.
    rewrite (io_bind_Ret _ _ _ _ _ _ _ _ (quiet_Done _ _ _ inputs _ Hinit)).
    assert (Hnew : (h ++ [np_zeros 3 3]) !! length h = Some (np_zeros 3 3))
      by (apply list_lookup_middle; reflexivity).
    destruct (display_board_quiet (Board.mk (length h)) (h ++ [np_zeros 3 3])
                (np_zeros 3 3) Hnew zeros_is_board) as (out_d & Hd & Hqd).
    rewrite (io_bind_Ret _ _ _ _ _ _ _ _ (call_Done _ _ _ inputs _ _ Hd)).
    destruct (Main.loop int fuel player_name
                (Main.mk (Board.mk (length h)) 0) (h ++ [np_zeros 3 3]) inputs)
      as [out_l r_l] eqn:Hloop.
    assert (Hinv : loop_invariant (h ++ [np_zeros 3 3])
                     (Main.mk (Board.mk (length h)) 0)).
    { exists (np_zeros 3 3). split; [exact Hnew|].
      split; [exact zeros_is_board|]. exists 5. exact human_ok_start. }
    destruct (loop_safe int player_name fuel _ _ _ _ _ Hinv Hloop)
      as [Hql Hend].
    intros Hrun. inversion Hrun; subst. split.
    + intros H. no_win H; first [exact (Hqd H)|exact (Hql H)].
    + intros Hfuel. apply Hend. unfold passes_left. simpl in *. lia.
Qed.

(** X15. The agent of the script never loses.  Whatever is typed, however
    long, and however [int] reads it, the script does not print that
    player 1, the human, wins. *)
Theorem main_agent_never_loses int (fuel : nat) (h : heap)
    (inputs : list string) :
  ~ In (Print ("Player 1 win!!!" +:+ nl))
      (fst (Main.main int fuel h inputs)).
Proof.
  destruct (Main.main int fuel h inputs) as [out r] eqn:Hrun.
  exact (proj1 (main_safe int fuel h inputs out r Hrun)).
Qed.

(** X16. The script stops in one of two ways only: after the goodbye, at the
    end of the [while] loop, or at an [input] call when no line is left.
    No other exception escapes, the agent always finds a move that
    [play] accepts, and the passes of the loop are at most twice the
    lines typed. *)
Theorem main_ends int (fuel : nat) (h : heap) (inputs : list string) :
  2 * length inputs <= fuel ->
  match snd (Main.main int fuel h inputs) with
  | Main.Ret _ _ _ => True
  | Main.Exc Main.EOFError _ _ => True
  | _ => False
  end.
Proof.
  intros Hfuel.
  destruct (Main.main int fuel h inputs) as [out r] eqn:Hrun.
  exact (proj2 (main_safe int fuel h inputs out r Hrun) Hfuel).
Qed.

Lemma main_ends_witness :
  match snd (Main.main digit_of 6 [] ["Ann"; "1"; "1"]) with
  | Main.Ret _ _ _ => True
  | Main.Exc Main.EOFError _ _ => True
  | _ => False
  end.
Proof.
  apply (main_ends digit_of 6 [] ["Ann"; "1"; "1"]). simpl. lia.
Defined.

(** * The agent keeps nothing between calls *)

(** X17. The result of [read_board] depends on the grid only: on two stores,
    at two addresses that hold the same board, it returns the same score
    and the same move. *)
Theorem read_board_stateless (self : Agent.t) (player : Z)
    (board1 board2 : loc) (h1 h2 : heap) (a : ndarray) :
  h1 !! board1 = Some a ->
  h2 !! board2 = Some a ->
  is_board a ->
  exists s m h1' h2',
    Agent.read_board self board1 player h1 = Done (s, m) h1'
    /\ Agent.read_board self board2 player h2 = Done (s, m) h2'.
Proof.
  intros Hl1 Hl2 Hb.
  destruct (read_board_Done self board1 player h1 a Hl1 Hb)
    as (s & m & Hval & _ & ext1 & Hrun1).
  destruct (read_board_value self board2 player h2 a Hl2) as [ext2 Hrun2].
  unfold Agent.read_value in Hrun2. rewrite (Hval _ (Nat.le_refl _)) in Hrun2.
  exists s, m, (h1 ++ ext1), (h2 ++ ext2). split; assumption.
Qed.

Lemma read_board_stateless_witness :
  exists s m h1' h2',
    Agent.read_board (Agent.mk 2) 0 2 [sample_board] = Done (s, m) h1'
    /\ Agent.read_board (Agent.mk 2) 1 2 [won_board; sample_board]
       = Done (s, m) h2'.
Proof.
  exact (read_board_stateless (Agent.mk 2) 2 0 1 [sample_board]
           [won_board; sample_board] sample_board eq_refl eq_refl
           sample_board_is_board).
Defined.

(** * The marks alternate *)

Lemma filter_count_same {A} (f g : A -> bool) (l : list A) :
  (forall y, In y l -> f y = g y) ->
  length (List.filter f l) = length (List.filter g l).
Proof.
  induction l as [|y l IH]; intros H; simpl; [reflexivity|].
  rewrite (H y (or_introl eq_refl)).
  assert (IH' : length (List.filter f l) = length (List.filter g l))
    by (apply IH; intros z Hz; apply H; right; exact Hz).
  destruct (g y); simpl; lia.
Qed.

Lemma filter_count_one {A} (f g : A -> bool) (l : list A) (x : A) :
  List.NoDup l -> In x l -> f x = false -> g x = true ->
  (forall y, In y l -> y <> x -> f y = g y) ->
  length (List.filter g l) = S (length (List.filter f l)).
Proof.
  induction l as [|y l IH]; intros Hnd Hin Hf Hg H; simpl; [destruct Hin|].
  inversion Hnd as [|? ? Hny Hnd']; subst.
  destruct Hin as [->|Hin].
  - rewrite Hf, Hg. simpl. f_equal. symmetry. apply filter_count_same.
    intros z Hz. apply H; [right; exact Hz|]. intros ->. contradiction.
  - assert (Hyx : y <> x) by (intros ->; contradiction).
    rewrite (H y (or_introl eq_refl) Hyx).
    assert (IH' : length (List.filter g l) = S (length (List.filter f l))).
    { apply IH; try assumption. intros z Hz. apply H. right; exact Hz. }
    destruct (g y); simpl; lia.
Qed.

Section mark.
Variables (a a' : ndarray) (i j : nat) (p : Z).
Hypothesis Hin : In (i, j) (empty_cells a).
Hypothesis Hp : p = 1%Z \/ p = 2%Z.
Hypothesis Hset : np_setitem a i j p = Ok a'.

Lemma mark_cell_is_other (q : Z) (ij : nat * nat) :
  ij <> (i, j) -> cell_is a q ij = cell_is a' q ij.
Proof.
  destruct ij as [i' j']. intros Hne. unfold cell_is; simpl.
  rewrite (np_getitem_setitem_ne _ _ _ _ _ _ _ Hset Hne). reflexivity.
Qed.

Lemma mark_cell_is_here (q : Z) :
  cell_is a q (i, j) = (0 =? q)%Z /\ cell_is a' q (i, j) = (p =? q)%Z.
Proof.
  apply empty_cells_spec in Hin as [_ Hget]. unfold cell_is; simpl.
  rewrite Hget, (np_getitem_setitem_eq _ _ _ _ _ Hset).
  destruct Hp as [->| ->]; split; reflexivity.
Qed.

(** Writing a mark in an Empty cell adds one to the count of that mark
    and leaves the count of the other mark. *)
Lemma mark_count_same : count_mark a' p = S (count_mark a p).
Proof.
  unfold count_mark.
  destruct (mark_cell_is_here p) as [H0 H1].
  apply (filter_count_one _ _ _ (i, j)).
  - apply scan_order_NoDup.
  - apply empty_cells_spec in Hin. apply Hin.
  - rewrite H0. destruct Hp as [->| ->]; reflexivity.
  - rewrite H1. apply Z.eqb_refl.
  - intros ij _ Hne. apply mark_cell_is_other, Hne.
Qed.

Lemma mark_count_other (q : Z) :
  q <> 0%Z -> q <> p -> count_mark a' q = count_mark a q.
Proof.
  intros Hq0 Hqp. unfold count_mark. apply filter_count_same.
  intros ij _. destruct (decide (ij = (i, j))) as [->|Hne].
  - destruct (mark_cell_is_here q) as [-> ->].
    replace (0 =? q)%Z with false by (symmetry; apply Z.eqb_neq; lia).
    apply Z.eqb_neq. congruence.
  - symmetry. apply mark_cell_is_other, Hne.
Qed.
End mark.

Lemma is_game_board_is_board (a : ndarray) : is_game_board a -> is_board a.
Proof.
  intros [Hlen Hrows]. split; [exact Hlen|].
  eapply Forall_impl; [exact Hrows|]. intros r [Hr Hc]. split; [exact Hr|].
  eapply Forall_impl; [exact Hc|]. intros c [->|[->| ->]]; unfold is_cell; lia.
Qed.

Lemma np_setitem_is_game_board (a a' : ndarray) (i j : nat) (p : Z) :
  is_game_board a -> p = 1%Z \/ p = 2%Z -> np_setitem a i j p = Ok a' ->
  is_game_board a'.
Proof.
  intros [Hlen Hrows] Hp H. apply np_setitem_inv in H as (r & Hi & Hj & ->).
  split; [rewrite length_insert; assumption|].
  apply Forall_insert; [assumption|].
  rewrite Forall_forall in Hrows.
  destruct (Hrows r) as [Hr Hc]; [eapply list_elem_of_lookup_2; eassumption|].
  split; [rewrite length_insert; assumption|].
  apply Forall_insert; [assumption|].
  destruct Hp as [->| ->]; unfold is_mark_or_empty; cbn; auto.
Qed.

Lemma zeros_is_game_board : is_game_board (np_zeros 3 3).
Proof.
  split; [reflexivity|].
  repeat (apply List.Forall_cons;
          [split; [reflexivity|];
           repeat (apply List.Forall_cons;
                   [unfold is_mark_or_empty; lia|]); apply List.Forall_nil|]).
  apply List.Forall_nil.
Qed.

Lemma turn_agent_cases int (v : Main.vars) (h : heap) (inputs : list string)
    (a : ndarray) :
  h !! Board.__board (Main.game v) = Some a ->
  is_board a ->
  (Main.player v mod 2 =? 0)%nat = false ->
  exists out ext,
    (exists i j,
       Main.turn int v h inputs
       = (out, Main.Ret (Z.of_nat i, Z.of_nat j) (h ++ ext) inputs)
       /\ In (i, j) (empty_cells a))
    \/ Main.turn int v h inputs
       = (out, Main.Exc Main.TypeError (h ++ ext) inputs).
Proof.
  intros Hl Hb Hpar. unfold Main.turn. rewrite Hpar.
  rewrite (io_bind_Ret _ _ _ _ _ _ _ _
             (quiet_Done _ _ _ inputs _ (get_board_copy _ _ _ Hl))).
  assert (Hc : (h ++ [a]) !! length h = Some a)
    by (apply list_lookup_middle; reflexivity).
  destruct (read_board_value Main.ai_player (length h) 2 (h ++ [a]) a Hc)
    as [ext Hrun].
  destruct (read_value_cases Main.ai_player a 2 Hb)
    as [(value & s & _ & _ & Hval)
       |(_ & scores & idx & s & [i j] & Hval & _ & Hij & _)];
    rewrite Hval in Hrun; cbn [embed] in Hrun;
    rewrite (io_bind_Ret _ _ _ _ _ _ _ _ (quiet_Done _ _ _ inputs _ Hrun)).
  - exists [], ([a] ++ ext). right. rewrite app_assoc. reflexivity.
  - eexists. exists ([a] ++ ext). left. exists i, j.
    split; [rewrite app_assoc; reflexivity|].
    apply list_elem_of_In. eapply list_elem_of_lookup_2. exact Hij.
Qed.

(** X18. A pass of the loop keeps the marks alternating: when the board holds
    marks and Empty cells only, with as many 1s as 2s at the human's turn
    and one more at the agent's turn, the same holds for the next pass,
    whatever was typed. *)
Theorem body_alternates int (player_name : string) (v v' : Main.vars)
    (h h' : heap) (inputs inputs' : list string) (out : list event) :
  alternating h v ->
  Main.body int player_name v h inputs = (out, Main.Ret (Some v') h' inputs') ->
  alternating h' v'.
Proof.
  intros (a & Hl & Hg & Hcount).
  pose proof (is_game_board_is_board a Hg) as Hb.
  pose proof (lookup_lt_Some _ _ _ Hl) as Hlt.
  assert (Hsame : forall ext, alternating (h ++ ext) v).
  { intros ext. exists a. split; [|auto].
    rewrite lookup_app_l by assumption. exact Hl. }
  assert (Hstep : forall (p : Z) (h1 : heap) (inputs1 : list string)
             (a' : ndarray) (ij : nat * nat) out1 r,
             p = Z.of_nat (Main.player v mod 2 + 1) ->
             h1 !! Board.__board (Main.game v) = Some a' ->
             In ij (empty_cells a) ->
             np_setitem a (fst ij) (snd ij) p = Ok a' ->
             Main.after_valid player_name v h1 inputs1 = (out1, r) ->
             match r with
             | Main.Ret (Some v1) h2 _ => alternating h2 v1
             | Main.Exc (Main.Core ValueError) _ _ => False
             | _ => True
             end).
  { intros p h1 inputs1 a' [i j] out1 r Hp Hl1 Hin Hset Hav.
    assert (Hp12 : p = 1%Z \/ p = 2%Z).
    { pose proof (Nat.mod_upper_bound (Main.player v) 2 ltac:(lia)). lia. }
    pose proof (np_setitem_is_game_board a a' i j p Hg Hp12 Hset) as Hg'.
    pose proof (is_game_board_is_board a' Hg') as Hb'.
    destruct (is_board_check_array a' Hb') as [value Hcheck].
    destruct (after_valid_safe player_name v h1 inputs1 a' value out1 r
                Hl1 Hb' Hcheck Hav) as [_ Hr].
    destruct r as [[v1|] h2 inputs2|[[|]| |] h2 inputs2| |]; try exact I;
      try contradiction.
    destruct Hr as [(_ & -> & -> & _)|(Hp0 & Hzero & _)].
    - exists a'. split; [exact Hl1|]. split; [exact Hg'|].
      cbn [Main.player].
      pose proof (mark_count_same a a' i j p Hin Hp12 Hset) as Hsame'.
      pose proof (Nat.mod_upper_bound (Main.player v) 2 ltac:(lia)) as Hm.
      rewrite Nat.Div0.add_mod.
      destruct Hp12 as [->| ->].
      + assert (Hm0 : Main.player v mod 2 = 0) by lia.
        rewrite (mark_count_other a a' i j 1 Hin (or_introl eq_refl) Hset 2)
          by lia.
        rewrite Hsame', Hcount, Hm0. simpl. lia.
      + assert (Hm1 : Main.player v mod 2 = 1) by lia.
        rewrite (mark_count_other a a' i j 2 Hin (or_intror eq_refl) Hset 1)
          by lia.
        rewrite Hsame', Hcount, Hm1. simpl. lia.
    - exists (np_zeros 3 3). split; [exact Hzero|].
      split; [exact zeros_is_game_board|]. rewrite Hp0. reflexivity. }
  unfold Main.body, Main.try_except_ValueError.
  destruct (Main.player v mod 2 =? 0)%nat eqn:Hpar.
  - destruct (turn_human int v h inputs Hpar) as (out_t & rt & Ht & _ & Hrt).
    destruct rt as [[row col] h1 inputs1|e h1 inputs1| |]; try contradiction.
    + destruct Hrt as [-> _].
      rewrite (io_bind_Ret _ _ _ _ _ _ _ _ Ht).
      destruct (screen_play_cases (Main.game v) h a
                  (Z.of_nat (Main.player v mod 2 + 1)) row col Hl Hb)
        as [(a' & Hs & Hset & Hin)|(out_p & Hs & _ & _)];
        rewrite (io_bind_Ret _ _ _ _ _ _ _ _
                   (call_Done _ _ _ inputs1 _ _ Hs)).
      * destruct (Main.after_valid player_name v
                    (<[Board.__board (Main.game v) := a']> h) inputs1)
          as [out1 r] eqn:Hav.
        pose proof (Hstep _ _ _ a' (Z.to_nat row, Z.to_nat col) out1 r
                      eq_refl (list_lookup_insert_eq _ _ _ Hlt) Hin Hset Hav)
          as Hr.
        destruct r as [[v1|] h2 inputs2|[[|]| |] h2 inputs2| |];
          try contradiction; intros Heq; inversion Heq; subst. exact Hr.
      * intros Heq. cbn in Heq. inversion Heq; subst.
        exists a. auto.
    + rewrite (io_bind_Exc _ _ _ _ _ _ _ _ Ht).
      destruct e as [[|]| |]; try contradiction;
        intros Heq; cbn in Heq; inversion Heq; subst.
      destruct Hrt as [-> _]. exists a. auto.
  - destruct (turn_agent_cases int v h inputs a Hl Hb Hpar)
      as (out_t & ext & [(i & j & Ht & Hin)|Ht]).
    + rewrite (io_bind_Ret _ _ _ _ _ _ _ _ Ht).
      assert (Hl2 : (h ++ ext) !! Board.__board (Main.game v) = Some a)
        by (rewrite lookup_app_l by assumption; exact Hl).
      destruct (screen_play_cases (Main.game v) (h ++ ext) a
                  (Z.of_nat (Main.player v mod 2 + 1)) (Z.of_nat i)
                  (Z.of_nat j) Hl2 Hb)
        as [(a' & Hs & Hset & _)|(out_p & Hs & _ & _)];
        rewrite (io_bind_Ret _ _ _ _ _ _ _ _
                   (call_Done _ _ _ inputs _ _ Hs)).
      * rewrite !Nat2Z.id in Hset.
        destruct (Main.after_valid player_name v
                    (<[Board.__board (Main.game v) := a']> (h ++ ext)) inputs)
          as [out1 r] eqn:Hav.
        assert (Hl3 : <[Board.__board (Main.game v) := a']> (h ++ ext)
                      !! Board.__board (Main.game v) = Some a')
          by (apply list_lookup_insert_eq; rewrite length_app; lia).
        pose proof (Hstep _ _ _ a' (i, j) out1 r eq_refl Hl3 Hin Hset Hav)
          as Hr.
        destruct r as [[v1|] h2 inputs2|[[|]| |] h2 inputs2| |];
          try contradiction; intros Heq; inversion Heq; subst. exact Hr.
      * intros Heq. cbn in Heq. inversion Heq; subst. apply Hsame.
    + rewrite (io_bind_Exc _ _ _ _ _ _ _ _ Ht).
      intros Heq. inversion Heq.
Qed.

Lemma body_alternates_witness :
  alternating [[[1; 2; 1]; [1; 2; 0]; [0; 0; 0]]%Z]
    (Main.mk (Board.mk 0) 1).
Proof.
  eapply (body_alternates digit_of "Ann" (Main.mk (Board.mk 0) 0) _
            [sample_board] _ ["1"; "0"] []).
  - exists sample_board. split; [reflexivity|].
    split; [exact sample_board_is_game_board|reflexivity].
  - reflexivity.
Defined.
